(** * when-society-falls: the entity/component runtime and the player input path

    A shallow embedding of [src/ecs/entity.py], [src/ecs/component.py],
    [src/components/player_controller.py] and [src/systems/player_system.py].

    Python objects live in a store indexed by references, so that aliasing
    (one component instance reachable from two entities) is visible.  Methods
    are computations in a state-and-exception monad: the store survives a
    raised exception, as it does in Python. *)

From stdpp Require Import gmap strings list fin_maps.
From Stdlib Require PrimFloat.

(** ** Python values used as entity identifiers *)

Module Py.

Inductive value :=
  | VNone
  | VBool (b : bool)
  | VInt (z : Z)
  | VStr (s : string).

#[global] Instance value_eq_dec : EqDecision value.
Proof. solve_decision. Defined.

Definition value_enc (v : value) : unit + bool + Z + string :=
  match v with
  | VNone => inl (inl (inl tt))
  | VBool b => inl (inl (inr b))
  | VInt z => inl (inr z)
  | VStr s => inr s
  end.

Definition value_dec (x : unit + bool + Z + string) : value :=
  match x with
  | inl (inl (inl _)) => VNone
  | inl (inl (inr b)) => VBool b
  | inl (inr z) => VInt z
  | inr s => VStr s
  end.

#[global] Instance value_countable : Countable value.
Proof. refine (inj_countable' value_enc value_dec _). by intros []. Defined.

(** [bool(v)]: None, False, 0 and the empty string are falsy. *)
Definition truthy (v : value) : bool :=
  match v with
  | VNone => false
  | VBool b => b
  | VInt z => negb (Z.eqb z 0)
  | VStr s => negb (bool_decide (s = EmptyString))
  end.

(** [a or b], with [b] already evaluated (it has no effect on the store). *)
Definition or_ (a b : value) : value := if truthy a then a else b.

End Py.

(** ** Python dictionaries, in insertion order *)

Module Dict.
Section dict.
Context {K V : Type} `{EqDecision K}.

(** [d.get(k)] *)
Fixpoint get (k : K) (d : list (K * V)) : option V :=
  match d with
  | [] => None
  | (k', v) :: d' => if decide (k = k') then Some v else get k d'
  end.

(** [k in d] *)
Definition mem (k : K) (d : list (K * V)) : bool :=
  match get k d with Some _ => true | None => false end.

(** [d[k] = v]: an existing key keeps its position, a new key goes last. *)
Fixpoint set (k : K) (v : V) (d : list (K * V)) : list (K * V) :=
  match d with
  | [] => [(k, v)]
  | (k', v') :: d' =>
      if decide (k = k') then (k, v) :: d' else (k', v') :: set k v d'
  end.

(** [del d[k]] for a key that is present (the caller raises KeyError
    otherwise). *)
Fixpoint del (k : K) (d : list (K * V)) : list (K * V) :=
  match d with
  | [] => []
  | (k', v') :: d' =>
      if decide (k = k') then del k d' else (k', v') :: del k d'
  end.

(** [list(d.keys())] *)
Definition keys (d : list (K * V)) : list K := d.*1.
End dict.
End Dict.

(** ** The object store *)

(** Component classes: the ones the components package exports, and any
    other subclass of [Component], named. *)
Inductive ctype :=
  | Transform | Sprite | Camera | Tilemap | RigidBody | Collider
  | PlayerController
  | UserClass (name : string).

#[global] Instance ctype_eq_dec : EqDecision ctype.
Proof. solve_decision. Defined.

Definition ctype_enc (T : ctype) : nat + string :=
  match T with
  | Transform => inl 0 | Sprite => inl 1 | Camera => inl 2
  | Tilemap => inl 3 | RigidBody => inl 4 | Collider => inl 5
  | PlayerController => inl 6
  | UserClass s => inr s
  end.

Definition ctype_dec (x : nat + string) : ctype :=
  match x with
  | inl 0 => Transform | inl 1 => Sprite | inl 2 => Camera
  | inl 3 => Tilemap | inl 4 => RigidBody | inl 5 => Collider
  | inl _ => PlayerController
  | inr s => UserClass s
  end.

#[global] Instance ctype_countable : Countable ctype.
Proof. refine (inj_countable' ctype_enc ctype_dec _). by intros []. Defined.

(** [cls.__name__] *)
Definition class_name (T : ctype) : string :=
  match T with
  | Transform => "Transform" | Sprite => "Sprite" | Camera => "Camera"
  | Tilemap => "Tilemap" | RigidBody => "RigidBody" | Collider => "Collider"
  | PlayerController => "PlayerController"
  | UserClass s => s
  end.

(** References to entity objects and to component objects. *)
Abbreviation eref := positive (only parsing).
Abbreviation cref := positive (only parsing).
Abbreviation tag := string (only parsing).

(** A component object: its class, the back-reference [self.entity], and the
    remaining instance attributes. *)
Record Component := mkComponent {
  cclass : ctype;
  entity : option eref;
  attrs : list (string * Py.value);
}.

(** An entity object.  [self.world] is the one world of the store. *)
Record Entity := mkEntity {
  id : Py.value;
  components : list (ctype * cref);
  tags : gset tag;
  active : bool;
}.

(** Modelled from the spec: the fields of [World] ([src/ecs/world.py] is not
    part of the sources).  The spec gives it the entity registry (id to
    entity), a secondary index from component type to the set of entity ids
    holding that type, a secondary index from tag to the set of entity ids
    holding that tag, and an active-set view. *)
Record World := mkWorld {
  registry : gmap Py.value eref;
  by_type : gmap ctype (gset Py.value);
  by_tag : gmap tag (gset Py.value);
  active_view : gset Py.value;
}.

Record Heap := mkHeap {
  ents : gmap eref Entity;
  comps : gmap cref Component;
  world : World;
}.

Definition with_ents (f : gmap eref Entity → gmap eref Entity) (h : Heap) : Heap :=
  mkHeap (f (ents h)) (comps h) (world h).
Definition with_comps (f : gmap cref Component → gmap cref Component) (h : Heap) : Heap :=
  mkHeap (ents h) (f (comps h)) (world h).
Definition with_world (f : World → World) (h : Heap) : Heap :=
  mkHeap (ents h) (comps h) (f (world h)).

Definition set_components (d : list (ctype * cref)) (e : Entity) : Entity :=
  mkEntity (id e) d (tags e) (active e).
Definition set_tags (s : gset tag) (e : Entity) : Entity :=
  mkEntity (id e) (components e) s (active e).
Definition set_active_flag (b : bool) (e : Entity) : Entity :=
  mkEntity (id e) (components e) (tags e) b.
Definition set_entity_ref (o : option eref) (c : Component) : Component :=
  mkComponent (cclass c) o (attrs c).

(** ** Computations: state that survives exceptions *)

Inductive exn :=
  | ValueError (msg : string)
  | KeyError
  | DuplicateIdError.

(** [Stuck] is the outcome of dereferencing a reference that the store does
    not hold; no Python execution produces it. *)
Inductive outcome (A : Type) :=
  | Ok (a : A)
  | Raise (e : exn)
  | Stuck.
Arguments Ok {A} a.
Arguments Raise {A} e.
Arguments Stuck {A}.

(** A computation over a state of type [S]. *)
Definition St (S A : Type) : Type := S → S * outcome A.

Definition ret {S A} (a : A) : St S A := λ h, (h, Ok a).
Definition bind {S A B} (m : St S A) (k : A → St S B) : St S B :=
  λ h, match m h with
       | (h', Ok a) => k a h'
       | (h', Raise e) => (h', Raise e)
       | (h', Stuck) => (h', Stuck)
       end.
Definition raise {S A} (e : exn) : St S A := λ h, (h, Raise e).
Definition gets {S A} (f : S → A) : St S A := λ h, (h, Ok (f h)).
Definition modify {S} (f : S → S) : St S unit := λ h, (f h, Ok tt).

Notation "x ←← m ;; k" := (bind m (λ x, k))
  (at level 100, m at next level, right associativity,
   format "'[v' x  ←←  m  ;;  '/' k ']'").
Notation "m ;;; k" := (bind m (λ _, k))
  (at level 100, right associativity,
   format "'[v' m  ;;;  '/' k ']'").

(** Computations over the object store. *)
Abbreviation M := (St Heap).

Definition read_entity (e : eref) : M Entity :=
  λ h, match ents h !! e with Some x => (h, Ok x) | None => (h, Stuck) end.
Definition read_component (c : cref) : M Component :=
  λ h, match comps h !! c with Some x => (h, Ok x) | None => (h, Stuck) end.
Definition update_entity (e : eref) (f : Entity → Entity) : M unit :=
  λ h, (with_ents (alter f e) h, Ok tt).
Definition update_component (c : cref) (f : Component → Component) : M unit :=
  λ h, (with_comps (alter f c) h, Ok tt).
Definition update_world (f : World → World) : M unit :=
  λ h, (with_world f h, Ok tt).

(** The heap after a call, whatever its outcome. *)
Definition exec {S A} (m : St S A) (h : S) : S := (m h).1.

(** [for x in l: body(x)] *)
Fixpoint for_each {A} (l : list A) (body : A → M unit) : M unit :=
  match l with
  | [] => ret tt
  | x :: l' => body x ;;; for_each l' body
  end.

(** ** [Component] (src/ecs/component.py) *)

(** The two lifecycle hooks a subclass may override.  A hook is run on the
    whole store: it reaches its entity and the world through [self.entity].
    Hooks are total here; a hook that raises is outside the model. *)
Class Hooks := mkHooks {
  on_add : cref → Heap → Heap;
  on_remove : cref → Heap → Heap;
}.

(** The hooks of [Component] itself: both bodies are [pass]. *)
Definition base_hooks : Hooks :=
  {| on_add := λ _ h, h; on_remove := λ _ h, h |}.

Definition call_hook (f : cref → Heap → Heap) (c : cref) : M unit :=
  λ h, (f c h, Ok tt).

(** [Component.__init__]: [self.entity = None]. *)
Definition Component_init (T : ctype) (a : list (string * Py.value)) : Component :=
  mkComponent T None a.

(** Constructing a component allocates a new object. *)
Definition new_component (T : ctype) (a : list (string * Py.value)) : M cref :=
  λ h, let c := fresh (dom (comps h)) in
       (with_comps (insert c (Component_init T a)) h, Ok c).

Definition _set_entity (self : cref) (e : eref) : M unit :=
  update_component self (set_entity_ref (Some e)).

Definition get_entity (self : cref) : M (option eref) :=
  c ←← read_component self ;; ret (entity c).

Definition get_component_type (self : cref) : M ctype :=
  c ←← read_component self ;; ret (cclass c).

(** ** [World], modelled from the spec *)

(** Modelled from the spec: the set of entity ids the type index holds for
    a class, and the set the tag index holds for a tag (empty when the index
    has no entry). *)
Definition type_ids (w : World) (T : ctype) : gset Py.value :=
  default ∅ (by_type w !! T).
Definition tag_ids (w : World) (t : tag) : gset Py.value :=
  default ∅ (by_tag w !! t).

Definition set_type_ids (T : ctype) (s : gset Py.value) (w : World) : World :=
  mkWorld (registry w) (<[T := s]> (by_type w)) (by_tag w) (active_view w).
Definition set_tag_ids (t : tag) (s : gset Py.value) (w : World) : World :=
  mkWorld (registry w) (by_type w) (<[t := s]> (by_tag w)) (active_view w).
Definition set_active_view (s : gset Py.value) (w : World) : World :=
  mkWorld (registry w) (by_type w) (by_tag w) s.

(** Modelled from the spec: the notification hooks [World] offers to
    [Entity] (world.py is not part of the sources).  "Each updates exactly
    the indexes affected." *)
Definition _entity_component_added (self : eref) (component : cref) : M unit :=
  e ←← read_entity self ;;
  c ←← read_component component ;;
  update_world (λ w, set_type_ids (cclass c) ({[id e]} ∪ type_ids w (cclass c)) w).

(** Modelled from the spec: see [_entity_component_added]. *)
Definition _entity_component_removed (self : eref) (component : cref) : M unit :=
  e ←← read_entity self ;;
  c ←← read_component component ;;
  update_world (λ w, set_type_ids (cclass c) (type_ids w (cclass c) ∖ {[id e]}) w).

(** Modelled from the spec: see [_entity_component_added]. *)
Definition _entity_tag_added (self : eref) (t : tag) : M unit :=
  e ←← read_entity self ;;
  update_world (λ w, set_tag_ids t ({[id e]} ∪ tag_ids w t) w).

(** Modelled from the spec: see [_entity_component_added]. *)
Definition _entity_tag_removed (self : eref) (t : tag) : M unit :=
  e ←← read_entity self ;;
  update_world (λ w, set_tag_ids t (tag_ids w t ∖ {[id e]}) w).

(** Modelled from the spec: "notifies the World to update its active-set
    view". *)
Definition _entity_active_changed (self : eref) (a : bool) : M unit :=
  e ←← read_entity self ;;
  update_world (λ w, set_active_view
    (if a then {[id e]} ∪ active_view w else active_view w ∖ {[id e]}) w).

(** Modelled from the spec: the world with id [i] removed from the
    registry, from every set of both indexes and from the active view. *)
Definition erase (i : Py.value) (w : World) : World :=
  mkWorld (delete i (registry w))
          ((λ s, s ∖ {[i]}) <$> by_type w)
          ((λ s, s ∖ {[i]}) <$> by_tag w)
          (active_view w ∖ {[i]}).

(** Modelled from the spec: "erase this entity from every index". *)
Definition _remove_entity (self : eref) : M unit :=
  e ←← read_entity self ;;
  update_world (erase (id e)).

(** ** [Entity] (src/ecs/entity.py) *)

(** [Entity.__init__].  [uuid4] is the text [str(uuid.uuid4())] would
    produce: it comes from the operating system's randomness. *)
Definition Entity_init (entity_id : Py.value) (uuid4 : string) : Entity :=
  mkEntity (Py.or_ entity_id (Py.VStr uuid4)) [] ∅ true.

Definition add_component `{Hooks} (self : eref) (component : cref) : M eref :=
  component_type ←← get_component_type component ;;
  e ←← read_entity self ;;
  if Dict.mem component_type (components e) then
    raise (ValueError ("Entity already has a component of type "
                         +:+ class_name component_type))
  else
    _set_entity component self ;;;
    update_entity self
      (λ e, set_components (Dict.set component_type component (components e)) e) ;;;
    _entity_component_added self component ;;;
    call_hook on_add component ;;;
    ret self.

Definition remove_component `{Hooks} (self : eref) (component_type : ctype)
    : M (option cref) :=
  e ←← read_entity self ;;
  match Dict.get component_type (components e) with
  | Some component =>
      call_hook on_remove component ;;;
      e' ←← read_entity self ;;
      (if Dict.mem component_type (components e') then
         update_entity self
           (λ e, set_components (Dict.del component_type (components e)) e)
       else raise KeyError) ;;;
      _entity_component_removed self component ;;;
      ret (Some component)
  | None => ret None
  end.

Definition get_component (self : eref) (component_type : ctype) : M (option cref) :=
  e ←← read_entity self ;; ret (Dict.get component_type (components e)).

Definition has_component (self : eref) (component_type : ctype) : M bool :=
  e ←← read_entity self ;; ret (Dict.mem component_type (components e)).

Definition has_components (self : eref) (component_types : list ctype) : M bool :=
  e ←← read_entity self ;;
  ret (forallb (λ ct, Dict.mem ct (components e)) component_types).

Definition add_tag (self : eref) (t : tag) : M eref :=
  update_entity self (λ e, set_tags ({[t]} ∪ tags e) e) ;;;
  _entity_tag_added self t ;;;
  ret self.

Definition remove_tag (self : eref) (t : tag) : M bool :=
  e ←← read_entity self ;;
  if bool_decide (t ∈ tags e) then
    update_entity self (λ e, set_tags (tags e ∖ {[t]}) e) ;;;
    _entity_tag_removed self t ;;;
    ret true
  else ret false.

Definition has_tag (self : eref) (t : tag) : M bool :=
  e ←← read_entity self ;; ret (bool_decide (t ∈ tags e)).

Definition destroy `{Hooks} (self : eref) : M unit :=
  e ←← read_entity self ;;
  for_each (Dict.keys (components e))
    (λ component_type, remove_component self component_type ;;; ret tt) ;;;
  _remove_entity self.

Definition is_active (self : eref) : M bool :=
  e ←← read_entity self ;; ret (active e).

Definition set_active (self : eref) (a : bool) : M eref :=
  e ←← read_entity self ;;
  (if negb (eqb (active e) a) then
     update_entity self (set_active_flag a) ;;;
     _entity_active_changed self a
   else ret tt) ;;;
  ret self.

(** ** [World.create_entity] and [World.query], modelled from the spec *)

(** Modelled from the spec: "allocates identity (generating one if not
    supplied; fails with DuplicateIdError if a supplied id collides with a
    live entity), registers an empty entry in all indexes, returns ... the
    new Entity".  The entity object is built by [Entity.__init__]. *)
Definition create_entity (entity_id : Py.value) (uuid4 : string) : M eref :=
  λ h,
    let e := Entity_init entity_id uuid4 in
    match registry (world h) !! id e with
    | Some _ => (h, Raise DuplicateIdError)
    | None =>
        let r := fresh (dom (ents h)) in
        (mkHeap (<[r := e]> (ents h)) (comps h)
           (mkWorld (<[id e := r]> (registry (world h)))
                    (by_type (world h)) (by_tag (world h))
                    ({[id e]} ∪ active_view (world h))),
         Ok r)
    end.

(** Modelled from the spec: "picking the smallest candidate set first".
    The set with the fewest elements among [s] and [ss] (the first such). *)
Definition smallest (s : gset Py.value) (ss : list (gset Py.value)) : gset Py.value :=
  foldl (λ m s', if decide (size s' < size m) then s' else m) s ss.

(** Modelled from the spec: "intersection of the per-type index sets".
    The ids held by every per-type index set of [required_types]: the
    smallest set is walked and each id is looked up in all the sets.  With
    no required type every registered id is a candidate. *)
Definition candidates (required_types : list ctype) (w : World) : list Py.value :=
  match type_ids w <$> required_types with
  | [] => elements (dom (registry w))
  | s :: ss =>
      filter (λ i, Forall (λ s', i ∈ s') (s :: ss)) (elements (smallest s ss))
  end.

(** Modelled from the spec: "returns entities whose component set is a
    superset of required_types; implemented as intersection of the per-type
    index sets, picking the smallest candidate set first ...; excludes
    inactive entities unless requested". *)
Definition query (required_types : list ctype) (include_inactive : bool)
    (w : World) : list eref :=
  omap (λ i, registry w !! i)
       (filter (λ i, include_inactive = true ∨ i ∈ active_view w)
               (candidates required_types w)).

Definition empty_world : World := mkWorld ∅ ∅ ∅ ∅.
Definition empty_heap : Heap := mkHeap ∅ ∅ empty_world.

(** ** The player controller and the player system *)

Module Player.
Import PrimFloat.

Abbreviation float := PrimFloat.float.

(** pygame's key constants (pygame 2). *)
Definition K_w : Z := 119.
Definition K_s : Z := 115.
Definition K_a : Z := 97.
Definition K_d : Z := 100.
Definition K_e : Z := 101.
Definition K_LSHIFT : Z := 1073742049.

Definition default_move_keys : list (string * Z) :=
  [("up", K_w); ("down", K_s); ("left", K_a); ("right", K_d)].

(** [d.get(k, False)] on a dictionary of booleans. *)
Definition pressed (d : gmap Z bool) (k : Z) : bool := default false (d !! k).

(** [x != 0.0] *)
Definition nonzero (x : float) : bool := negb (PrimFloat.eqb x 0%float).

(** [x ** 2] and [x ** 0.5].  [process_input] applies them to direction
    components that are -1.0 or 1.0 and to their sum of squares 2.0, where
    the C library's [pow] gives the product and the square root. *)
Definition square (x : float) : float := PrimFloat.mul x x.
Definition pow_half (x : float) : float := PrimFloat.sqrt x.

Section controller.
(** The state an interaction callback acts on. *)
Context {Env : Type}.

(** The dataclass fields of [PlayerController]. *)
Record PlayerController := mkPlayerController {
  move_speed : float;
  sprint_multiplier : float;
  interaction_range : float;
  move_keys : list (string * Z);
  sprint_key : Z;
  interact_key : Z;
  is_moving : bool;
  is_sprinting : bool;
  move_direction : float * float;
  facing_direction : float * float;
  on_interact : option (Env → Env);
}.

Definition set_direction (d : float * float) (p : PlayerController) :=
  mkPlayerController (move_speed p) (sprint_multiplier p) (interaction_range p)
    (move_keys p) (sprint_key p) (interact_key p) (is_moving p)
    (is_sprinting p) d (facing_direction p) (on_interact p).
Definition set_facing (d : float * float) (p : PlayerController) :=
  mkPlayerController (move_speed p) (sprint_multiplier p) (interaction_range p)
    (move_keys p) (sprint_key p) (interact_key p) (is_moving p)
    (is_sprinting p) (move_direction p) d (on_interact p).
Definition set_sprinting (b : bool) (p : PlayerController) :=
  mkPlayerController (move_speed p) (sprint_multiplier p) (interaction_range p)
    (move_keys p) (sprint_key p) (interact_key p) (is_moving p)
    b (move_direction p) (facing_direction p) (on_interact p).
Definition set_moving (b : bool) (p : PlayerController) :=
  mkPlayerController (move_speed p) (sprint_multiplier p) (interaction_range p)
    (move_keys p) (sprint_key p) (interact_key p) b
    (is_sprinting p) (move_direction p) (facing_direction p) (on_interact p).
Definition set_on_interact (f : option (Env → Env)) (p : PlayerController) :=
  mkPlayerController (move_speed p) (sprint_multiplier p) (interaction_range p)
    (move_keys p) (sprint_key p) (interact_key p) (is_moving p)
    (is_sprinting p) (move_direction p) (facing_direction p) f.

(** The dataclass defaults, with [move_speed] given. *)
Definition PlayerController_init (speed : float) : PlayerController :=
  mkPlayerController speed 1.5%float 100%float default_move_keys K_LSHIFT K_e
    false false (0%float, 0%float) (0%float, 1%float) None.

(** [self.move_keys[name]] *)
Definition move_key (name : string) : St PlayerController Z :=
  λ p, match Dict.get name (move_keys p) with
       | Some k => (p, Ok k)
       | None => (p, Raise KeyError)
       end.

(** One of the four [if keys_pressed.get(self.move_keys[...], False):]
    statements: [step] is the new [move_direction], [facing] the new
    [facing_direction]. *)
Definition check_move_key (keys_pressed : gmap Z bool) (name : string)
    (step : float * float → float * float) (facing : float * float)
    : St PlayerController unit :=
  k ←← move_key name ;;
  if pressed keys_pressed k then
    modify (λ p, set_direction (step (move_direction p)) p) ;;;
    modify (set_facing facing)
  else ret tt.

Definition process_input (dt : float) (keys_pressed : gmap Z bool)
    : St PlayerController (float * float) :=
  modify (set_direction (0%float, 0%float)) ;;;
  check_move_key keys_pressed "up"
    (λ d, (d.1, PrimFloat.sub d.2 1%float)) (0%float, (-1)%float) ;;;
  check_move_key keys_pressed "down"
    (λ d, (d.1, PrimFloat.add d.2 1%float)) (0%float, 1%float) ;;;
  check_move_key keys_pressed "left"
    (λ d, (PrimFloat.sub d.1 1%float, d.2)) ((-1)%float, 0%float) ;;;
  check_move_key keys_pressed "right"
    (λ d, (PrimFloat.add d.1 1%float, d.2)) (1%float, 0%float) ;;;
  d ←← gets move_direction ;;
  (if nonzero d.1 && nonzero d.2 then
     let length := pow_half (PrimFloat.add (square d.1) (square d.2)) in
     modify (set_direction (PrimFloat.div d.1 length, PrimFloat.div d.2 length))
   else ret tt) ;;;
  sk ←← gets sprint_key ;;
  modify (set_sprinting (pressed keys_pressed sk)) ;;;
  p ←← gets (λ p, p) ;;
  let speed :=
    if is_sprinting p then PrimFloat.mul (move_speed p) (sprint_multiplier p)
    else move_speed p in
  let move_x := PrimFloat.mul (PrimFloat.mul (move_direction p).1 speed) dt in
  let move_y := PrimFloat.mul (PrimFloat.mul (move_direction p).2 speed) dt in
  modify (set_moving (nonzero move_x || nonzero move_y)) ;;;
  ret (move_x, move_y).

(** The callback runs on the environment; the result tells whether it
    ran. *)
Definition process_interaction (self : PlayerController)
    (keys_pressed key_just_pressed : gmap Z bool) (env : Env) : Env * bool :=
  match pressed key_just_pressed (interact_key self), on_interact self with
  | true, Some callback => (callback env, true)
  | _, _ => (env, false)
  end.

Definition set_interaction_callback (callback : Env → Env)
    : St PlayerController unit :=
  modify (set_on_interact (Some callback)).
End controller.
Arguments PlayerController : clear implicits.

(** The input bookkeeping of [PlayerSystem]. *)
Record PlayerSystem := mkPlayerSystem {
  keys_pressed : gmap Z bool;
  keys_just_pressed : gmap Z bool;
  previous_keys : gmap Z bool;
}.

Definition PlayerSystem_init : PlayerSystem := mkPlayerSystem ∅ ∅ ∅.

(** [{key: key_state[key] for key in range(len(key_state)) if key_state[key]}] *)
Definition pressed_keys (key_state : list bool) : gmap Z bool :=
  foldl (λ d key,
           match key_state !! Z.to_nat key with
           | Some true => <[key := true]> d
           | _ => d
           end)
        ∅ (seqZ 0 (Z.of_nat (length key_state))).

(** [{key: True for key in keys_pressed if key not in previous_keys}] *)
Definition just_pressed (now previous : gmap Z bool) : gmap Z bool :=
  (λ _, true) <$> filter (λ kv, previous !! kv.1 = None) now.

(** [key_state] is what [pygame.key.get_pressed()] returns this frame. *)
Definition _update_input_state (key_state : list bool) (self : PlayerSystem)
    : PlayerSystem :=
  let previous := keys_pressed self in
  let now := pressed_keys key_state in
  mkPlayerSystem now (just_pressed now previous) previous.

(** A controller with the default keys, [move_speed = 150] and a callback
    that counts its calls; "up" and "right" held; a key state with every
    key up and one with the interaction key down. *)
Definition demo_controller : PlayerController nat :=
  set_on_interact (Some S) (PlayerController_init 150%float).

Definition demo_keys : gmap Z bool := {[ K_w := true; K_d := true ]}.

Definition frame_up : list bool := replicate 512 false.
Definition frame_down : list bool := <[Z.to_nat K_e := true]> frame_up.

End Player.

(** ** Closed forms for the player controller and runs of the player system *)

Module PlayerForms.
Import PrimFloat.
Import Player.

(** One axis of the direction, from the key of the negative side and the
    key of the positive side. *)
Definition axis (neg pos : bool) : float :=
  match neg, pos with
  | true, false => (-1)%float
  | false, true => 1%float
  | _, _ => 0%float
  end.

(** A diagonal component: 1/sqrt(2) with the sign of [x]. *)
Definition diagonal (x : float) : float :=
  if (x <? 0)%float then (- 0x1.6a09e667f3bccp-1)%float
  else 0x1.6a09e667f3bccp-1%float.

(** The direction for the pressed states of up, down, left and right. *)
Definition direction_of (u d l r : bool) : float * float :=
  let x := axis l r in
  let y := axis u d in
  if nonzero x && nonzero y then (diagonal x, diagonal y) else (x, y).

(** The facing direction: the last pressed key in the order up, down,
    left, right; the old one when no key is pressed. *)
Definition facing_of (u d l r : bool) (old : float * float) : float * float :=
  if r then (1%float, 0%float)
  else if l then ((-1)%float, 0%float)
  else if d then (0%float, 1%float)
  else if u then (0%float, (-1)%float)
  else old.

(** The direction after the normalisation step of [process_input]. *)
Definition normalised (d : float * float) : float * float :=
  if nonzero d.1 && nonzero d.2
  then (d.1 / pow_half (square d.1 + square d.2),
        d.2 / pow_half (square d.1 + square d.2))%float
  else d.

(** The statements of [process_input] that follow the four key checks. *)
Definition finish_input {Env} (dt : float) (keys_pressed : gmap Z bool)
    : St (PlayerController Env) (float * float) :=
  d ←← gets move_direction ;;
  (if nonzero d.1 && nonzero d.2 then
     let length := pow_half (PrimFloat.add (square d.1) (square d.2)) in
     modify (set_direction (PrimFloat.div d.1 length, PrimFloat.div d.2 length))
   else ret tt) ;;;
  sk ←← gets sprint_key ;;
  modify (set_sprinting (pressed keys_pressed sk)) ;;;
  p ←← gets (λ p, p) ;;
  let speed :=
    if is_sprinting p then PrimFloat.mul (move_speed p) (sprint_multiplier p)
    else move_speed p in
  let move_x := PrimFloat.mul (PrimFloat.mul (move_direction p).1 speed) dt in
  let move_y := PrimFloat.mul (PrimFloat.mul (move_direction p).2 speed) dt in
  modify (set_moving (nonzero move_x || nonzero move_y)) ;;;
  ret (move_x, move_y).

(** The direction the four key checks leave, before normalisation. *)
Definition raw_direction (u d l r : bool) : float * float :=
  (λ x : float * float, if r then ((x.1 + 1)%float, x.2) else x)
    ((λ x : float * float, if l then ((x.1 - 1)%float, x.2) else x)
       ((λ x : float * float, if d then (x.1, (x.2 + 1)%float) else x)
          ((λ x : float * float, if u then (x.1, (x.2 - 1)%float) else x)
             (0%float, 0%float)))).

(** [PlayerSystem._update_input_state] over the key states of successive
    frames. *)
Definition updates (frames : list (list bool)) (s : PlayerSystem) : PlayerSystem :=
  foldl (λ s key_state, _update_input_state key_state s) s frames.

End PlayerForms.

(** ** The input manager (src/core/input_manager.py) *)

Module Input.

(** The pygame events [process_event] tells apart, with the attributes it
    reads; [Quit] and [OtherEvent] stand for the event types it ignores. *)
Inductive event :=
  | KeyDown (key : Z)
  | KeyUp (key : Z)
  | MouseMotion (pos rel : Z * Z)
  | MouseButtonDown (button : Z) (pos : Z * Z)
  | MouseButtonUp (button : Z) (pos : Z * Z)
  | Quit
  | OtherEvent (type : Z).

Section manager.
(** The state the registered callbacks act on.  A callback does not touch
    the input manager itself. *)
Context {Env : Type}.

Record InputManager := mkInputManager {
  keys_pressed : gset Z;
  keys_down : gset Z;
  keys_up : gset Z;
  mouse_position : Z * Z;
  mouse_buttons_pressed : gset Z;
  mouse_buttons_down : gset Z;
  mouse_buttons_up : gset Z;
  mouse_wheel_y : Z;
  key_callbacks : list (Z * list (Z → bool → Env → Env));
  mouse_button_callbacks : list (Z * list (Z → bool → Z * Z → Env → Env));
  mouse_motion_callbacks : list (Z * Z → Z * Z → Env → Env);
}.

(** [InputManager.__init__] *)
Definition InputManager_init : InputManager :=
  mkInputManager ∅ ∅ ∅ (0, 0)%Z ∅ ∅ ∅ 0 [] [] [].

Definition set_keys (pressed down up : gset Z) (m : InputManager) : InputManager :=
  mkInputManager pressed down up (mouse_position m) (mouse_buttons_pressed m)
    (mouse_buttons_down m) (mouse_buttons_up m) (mouse_wheel_y m)
    (key_callbacks m) (mouse_button_callbacks m) (mouse_motion_callbacks m).

Definition set_mouse_position (pos : Z * Z) (m : InputManager) : InputManager :=
  mkInputManager (keys_pressed m) (keys_down m) (keys_up m) pos
    (mouse_buttons_pressed m) (mouse_buttons_down m) (mouse_buttons_up m)
    (mouse_wheel_y m) (key_callbacks m) (mouse_button_callbacks m)
    (mouse_motion_callbacks m).

Definition set_buttons (pressed down up : gset Z) (m : InputManager) : InputManager :=
  mkInputManager (keys_pressed m) (keys_down m) (keys_up m) (mouse_position m)
    pressed down up (mouse_wheel_y m)
    (key_callbacks m) (mouse_button_callbacks m) (mouse_motion_callbacks m).

(** [if k in callbacks: for callback in callbacks[k]: call(callback)] *)
Definition run_callbacks {C} (callbacks : list (Z * list C)) (k : Z)
    (call : C → Env → Env) (env : Env) : Env :=
  match Dict.get k callbacks with
  | Some l => foldl (λ env callback, call callback env) env l
  | None => env
  end.

Definition process_event (self : InputManager) (ev : event) (env : Env)
    : InputManager * Env :=
  match ev with
  | KeyDown key =>
      (set_keys ({[key]} ∪ keys_pressed self) ({[key]} ∪ keys_down self)
         (keys_up self) self,
       run_callbacks (key_callbacks self) key (λ callback, callback key true) env)
  | KeyUp key =>
      (set_keys (keys_pressed self ∖ {[key]}) (keys_down self)
         ({[key]} ∪ keys_up self) self,
       run_callbacks (key_callbacks self) key (λ callback, callback key false) env)
  | MouseMotion pos rel =>
      (set_mouse_position pos self,
       foldl (λ env callback, callback pos rel env) env
         (mouse_motion_callbacks self))
  | MouseButtonDown button pos =>
      (set_buttons ({[button]} ∪ mouse_buttons_pressed self)
         ({[button]} ∪ mouse_buttons_down self) (mouse_buttons_up self) self,
       run_callbacks (mouse_button_callbacks self) button
         (λ callback, callback button true pos) env)
  | MouseButtonUp button pos =>
      (set_buttons (mouse_buttons_pressed self ∖ {[button]})
         (mouse_buttons_down self) ({[button]} ∪ mouse_buttons_up self) self,
       run_callbacks (mouse_button_callbacks self) button
         (λ callback, callback button false pos) env)
  | Quit | OtherEvent _ => (self, env)
  end.

Definition update (self : InputManager) : InputManager :=
  mkInputManager (keys_pressed self) ∅ ∅ (mouse_position self)
    (mouse_buttons_pressed self) ∅ ∅ 0
    (key_callbacks self) (mouse_button_callbacks self)
    (mouse_motion_callbacks self).

Definition is_key_pressed (self : InputManager) (key : Z) : bool :=
  bool_decide (key ∈ keys_pressed self).
Definition is_key_down (self : InputManager) (key : Z) : bool :=
  bool_decide (key ∈ keys_down self).
Definition is_key_up (self : InputManager) (key : Z) : bool :=
  bool_decide (key ∈ keys_up self).
Definition is_mouse_button_pressed (self : InputManager) (button : Z) : bool :=
  bool_decide (button ∈ mouse_buttons_pressed self).
Definition is_mouse_button_down (self : InputManager) (button : Z) : bool :=
  bool_decide (button ∈ mouse_buttons_down self).
Definition is_mouse_button_up (self : InputManager) (button : Z) : bool :=
  bool_decide (button ∈ mouse_buttons_up self).
Definition get_mouse_position (self : InputManager) : Z * Z :=
  mouse_position self.

(** [if k not in d: d[k] = []] followed by [d[k].append(callback)] *)
Definition append_callback {C} (k : Z) (callback : C) (d : list (Z * list C))
    : list (Z * list C) :=
  match Dict.get k d with
  | Some l => Dict.set k (l ++ [callback]) d
  | None => Dict.set k [callback] d
  end.

Definition register_key_callback (key : Z) (callback : Z → bool → Env → Env)
    (self : InputManager) : InputManager :=
  mkInputManager (keys_pressed self) (keys_down self) (keys_up self)
    (mouse_position self) (mouse_buttons_pressed self)
    (mouse_buttons_down self) (mouse_buttons_up self) (mouse_wheel_y self)
    (append_callback key callback (key_callbacks self))
    (mouse_button_callbacks self) (mouse_motion_callbacks self).

Definition register_mouse_button_callback (button : Z)
    (callback : Z → bool → Z * Z → Env → Env) (self : InputManager)
    : InputManager :=
  mkInputManager (keys_pressed self) (keys_down self) (keys_up self)
    (mouse_position self) (mouse_buttons_pressed self)
    (mouse_buttons_down self) (mouse_buttons_up self) (mouse_wheel_y self)
    (key_callbacks self)
    (append_callback button callback (mouse_button_callbacks self))
    (mouse_motion_callbacks self).

Definition register_mouse_motion_callback
    (callback : Z * Z → Z * Z → Env → Env) (self : InputManager)
    : InputManager :=
  mkInputManager (keys_pressed self) (keys_down self) (keys_up self)
    (mouse_position self) (mouse_buttons_pressed self)
    (mouse_buttons_down self) (mouse_buttons_up self) (mouse_wheel_y self)
    (key_callbacks self) (mouse_button_callbacks self)
    (mouse_motion_callbacks self ++ [callback]).

(** The events of a batch, processed in order. *)
Definition process_all (evs : list event) (st : InputManager * Env)
    : InputManager * Env :=
  foldl (λ st ev, process_event st.1 ev st.2) st evs.

(** A list of [register_key_callback] calls, in order. *)
Definition register_keys (regs : list (Z * (Z → bool → Env → Env)))
    (self : InputManager) : InputManager :=
  foldl (λ m r, register_key_callback r.1 r.2 m) self regs.

(** The event is a key event of key [k]. *)
Definition about_key (k : Z) (ev : event) : Prop :=
  match ev with
  | KeyDown key | KeyUp key => key = k
  | _ => False
  end.
End manager.
Arguments InputManager : clear implicits.

(** Three registrations on a counter: two for key 101, one for key 119. *)
Definition demo_registrations : list (Z * (Z → bool → nat → nat)) :=
  [(101%Z, λ _ _ n, n + 1); (119%Z, λ _ _ n, 0); (101%Z, λ _ _ n, n * 2)].

(** A batch with no event about key 101. *)
Definition demo_batch : list event :=
  [KeyDown 119; MouseMotion (3, 4)%Z (1, 1)%Z].

End Input.

(** ** The application loop (src/core/application.py) *)

Module App.
Import Input.

(** pygame's [K_ESCAPE]. *)
Definition K_ESCAPE : Z := 27.

Section application.
Context {Env : Type}.

(** The fields of [Application] its event and update methods use: the
    [escape_quits] setting of the configuration, the input manager with the
    state its callbacks act on, the current scene (a reference, None before
    the first [set_scene]) and the quit flag.  The logger, the window and
    the clock play no part in these methods. *)
Record Application := mkApplication {
  escape_quits : bool;
  input_manager : InputManager Env;
  env : Env;
  current_scene : option nat;
  quit_requested : bool;
}.

Definition set_quit_requested (b : bool) (a : Application) : Application :=
  mkApplication (escape_quits a) (input_manager a) (env a) (current_scene a) b.
Definition set_input (st : InputManager Env * Env) (a : Application) : Application :=
  mkApplication (escape_quits a) st.1 st.2 (current_scene a) (quit_requested a).
Definition set_current_scene (sc : option nat) (a : Application) : Application :=
  mkApplication (escape_quits a) (input_manager a) (env a) sc (quit_requested a).

(** The methods of a scene (the scene classes are not part of the sources):
    each is run on the application it reaches through [on_enter]. *)
Class SceneHooks := mkSceneHooks {
  on_enter : nat → Application → Application;
  on_exit : nat → Application → Application;
  scene_process_event : nat → event → Application → Application;
  scene_update : nat → PrimFloat.float → Application → Application;
  scene_render : nat → Application → Application;
}.

Context `{SceneHooks}.

(** [if self.current_scene: self.current_scene.method(...)] *)
Definition with_scene (f : nat → Application → Application) (a : Application)
    : Application :=
  match current_scene a with
  | Some sc => f sc a
  | None => a
  end.

Definition set_scene (sc : nat) (self : Application) : Application :=
  on_enter sc (set_current_scene (Some sc) (with_scene on_exit self)).

(** The body of the loop of [process_events] for one event. *)
Definition process_one_event (self : Application) (ev : event) : Application :=
  let a1 :=
    match ev with
    | Quit => set_quit_requested true self
    | KeyDown key =>
        if bool_decide (key = K_ESCAPE) then
          if escape_quits self then set_quit_requested true self else self
        else self
    | _ => self
    end in
  let a2 := set_input (process_event (input_manager a1) ev (env a1)) a1 in
  with_scene (λ sc, scene_process_event sc ev) a2.

(** [events] is what [pygame.event.get()] returns. *)
Definition process_events (events : list event) (self : Application)
    : Application :=
  foldl process_one_event self events.

Definition update (dt : PrimFloat.float) (self : Application) : Application :=
  with_scene (λ sc, scene_update sc dt)
    (set_input (Input.update (input_manager self), env self) self).

Definition render (self : Application) : Application :=
  with_scene scene_render self.

Definition shutdown (self : Application) : Application :=
  with_scene on_exit self.

(** The loop of [run], over the clock reading and the events of each frame.
    None: the frames are used up and the loop is still running. *)
Fixpoint run (frames : list (PrimFloat.float * list event)) (self : Application)
    : option Application :=
  match frames with
  | [] => if quit_requested self then Some (shutdown self) else None
  | (dt, events) :: frames' =>
      if quit_requested self then Some (shutdown self)
      else run frames' (render (update dt (process_events events self)))
  end.

(** The event asks to quit under the setting [esc]. *)
Definition asks_to_quit (esc : bool) (ev : event) : bool :=
  match ev with
  | Quit => true
  | KeyDown key => bool_decide (key = K_ESCAPE) && esc
  | _ => false
  end.
End application.
Arguments Application : clear implicits.
Arguments SceneHooks : clear implicits.

(** A scene whose methods all do nothing. *)
Definition idle_scene {Env} : SceneHooks Env :=
  {| on_enter := λ _ a, a; on_exit := λ _ a, a;
     scene_process_event := λ _ _ a, a; scene_update := λ _ _ a, a;
     scene_render := λ _ a, a |}.

(** An application showing scene 0, with key 101 just pressed. *)
Definition demo_application : Application nat :=
  mkApplication true (process_event InputManager_init (KeyDown 101%Z) 0%nat).1
    0%nat (Some 0%nat) false.

End App.

(** ** Stores after a link and after an unlink *)

(** The store once [add_component] has set the back-reference, stored the
    component and notified the world, and before the on-attach hook. *)
Definition linked (self : eref) (component : cref) (e : Entity) (c : Component)
    (h : Heap) : Heap :=
  mkHeap
    (<[self := set_components (Dict.set (cclass c) component (components e)) e]> (ents h))
    (<[component := set_entity_ref (Some self) c]> (comps h))
    (set_type_ids (cclass c) ({[id e]} ∪ type_ids (world h) (cclass c)) (world h)).

(** The store once [remove_component] has deleted the entry and notified the
    world; [h] is the store the on-detach hook left. *)
Definition unlinked (self : eref) (T : ctype) (e : Entity) (c : Component)
    (h : Heap) : Heap :=
  mkHeap
    (<[self := set_components (Dict.del T (components e)) e]> (ents h))
    (comps h)
    (set_type_ids (cclass c) (type_ids (world h) (cclass c) ∖ {[id e]}) (world h)).

(** Detaching the entries [cs] of [self] one after the other: each hook runs
    on the store the previous detach left, and its unlink is done before the
    next hook starts. *)
Fixpoint detach_each `{Hooks} (self : eref) (cs : list (ctype * cref))
    (h : Heap) : Heap :=
  match cs with
  | [] => h
  | (T, component) :: cs' =>
      let h1 := on_remove component h in
      match ents h1 !! self, comps h1 !! component with
      | Some e1, Some c1 => detach_each self cs' (unlinked self T e1 c1 h1)
      | _, _ => h1
      end
  end.

(** A hook that changes component objects only, and none of their classes:
    "components are data containers". *)
Definition data_only (f : cref → Heap → Heap) : Prop :=
  ∀ c h, ents (f c h) = ents h ∧ world (f c h) = world h ∧
         ∀ c', cclass <$> comps (f c h) !! c' = cclass <$> comps h !! c'.

(** ** Operation sequences on a world *)

(** [e] is a handle to an entity of the world: the registry maps the
    entity's id back to it. *)
Definition is_live (e : eref) (h : Heap) : bool :=
  match ents h !! e with
  | Some x => bool_decide (registry (world h) !! id x = Some e)
  | None => false
  end.

Inductive op :=
  | OpCreate (entity_id : Py.value) (uuid4 : string)
  | OpNew (T : ctype) (a : list (string * Py.value))
  | OpAttach (e : eref) (c : cref)
  | OpDetach (e : eref) (T : ctype)
  | OpAddTag (e : eref) (t : tag)
  | OpRemoveTag (e : eref) (t : tag)
  | OpSetActive (e : eref) (a : bool)
  | OpDestroy (e : eref).

(** A call on an entity handle; a handle that is no longer valid is not
    used. *)
Definition on_live {A} (e : eref) (m : M A) (h : Heap) : Heap :=
  if is_live e h then exec m h else h.

Definition exec_op `{Hooks} (o : op) (h : Heap) : Heap :=
  match o with
  | OpCreate i u => exec (create_entity i u) h
  | OpNew T a => exec (new_component T a) h
  | OpAttach e c => on_live e (add_component e c) h
  | OpDetach e T => on_live e (remove_component e T) h
  | OpAddTag e t => on_live e (add_tag e t) h
  | OpRemoveTag e t => on_live e (remove_tag e t) h
  | OpSetActive e a => on_live e (set_active e a) h
  | OpDestroy e => on_live e (destroy e) h
  end.

Definition run `{Hooks} (ops : list op) (h : Heap) : Heap :=
  foldl (λ h o, exec_op o h) h ops.

(** The entity the world knows under id [i]. *)
Definition entity_of (h : Heap) (i : Py.value) : option Entity :=
  registry (world h) !! i ≫= λ r, ents h !! r.

(** The three indexes and the active view agree with the entities. *)
Record index_consistent (h : Heap) : Prop := mkConsistent {
  ic_registry : ∀ i r, registry (world h) !! i = Some r →
                       ∃ x, ents h !! r = Some x ∧ id x = i;
  ic_type : ∀ T i, i ∈ type_ids (world h) T ↔
                   ∃ x, entity_of h i = Some x ∧ Dict.mem T (components x) = true;
  ic_tag : ∀ t i, i ∈ tag_ids (world h) t ↔
                  ∃ x, entity_of h i = Some x ∧ t ∈ tags x;
  ic_active : ∀ i, i ∈ active_view (world h) ↔
                   ∃ x, entity_of h i = Some x ∧ active x = true;
}.

(** [i] occurs in no index of [w]. *)
Definition absent_from_indexes (i : Py.value) (w : World) : Prop :=
  registry w !! i = None ∧ (∀ T, i ∉ type_ids w T) ∧ (∀ t, i ∉ tag_ids w t) ∧
  i ∉ active_view w.

(** The mapping of an entity is keyed by the class of the component it
    holds, each key once, and every component it names is in the store. *)
Definition entry_ok (cs : gmap cref Component) (T : ctype) (k : cref) : Prop :=
  ∃ cc, cs !! k = Some cc ∧ cclass cc = T.

Definition mapping_ok (cs : gmap cref Component) (x : Entity) : Prop :=
  NoDup (Dict.keys (components x)) ∧
  ∀ T k, Dict.get T (components x) = Some k → entry_ok cs T k.

Definition store_ok (h : Heap) : Prop :=
  ∀ r x, ents h !! r = Some x → mapping_ok (comps h) x.

Record well_formed (h : Heap) : Prop := mkWellFormed {
  wf_index : index_consistent h;
  wf_store : store_ok h;
}.

(** The object [r] exists and no id of the registry leads to it. *)
Definition unregistered (r : eref) (h : Heap) : Prop :=
  is_Some (ents h !! r) ∧ ∀ i, registry (world h) !! i ≠ Some r.

(** The entity object [r] is in the store and its id is [i]. *)
Definition has_id (r : eref) (i : Py.value) (h : Heap) : Prop :=
  ∃ x, ents h !! r = Some x ∧ id x = i.

(** ** A small world to run the operations on *)

(** Two entities and two [Transform] instances; the first instance is
    attached to the first entity.  The hooks are those of [Component]. *)
Definition demo_ops : list op :=
  [OpCreate (Py.VStr "player") "";
   OpCreate Py.VNone "6fa459ea-ee8a-3ca4-894e-db77e160355e";
   OpNew Transform [("x", Py.VInt 0)];
   OpAttach 1 1;
   OpNew Transform [];
   OpAddTag 1 "hero"].

Definition demo_heap : Heap := run (H := base_hooks) demo_ops empty_heap.

(** The first entity of [demo_heap]. *)
Definition demo_player : Entity :=
  mkEntity (Py.VStr "player") [(Transform, 1%positive)] {["hero"]} true.

(** The second entity of [demo_heap]. *)
Definition demo_other : Entity :=
  mkEntity (Py.VStr "6fa459ea-ee8a-3ca4-894e-db77e160355e") [] ∅ true.

(** The attached [Transform] of [demo_heap]. *)
Definition demo_transform : Component :=
  mkComponent Transform (Some 1%positive) [("x", Py.VInt 0)].

(** * Properties *)

(** ** Dictionaries *)

Section dict_facts.
Context {K V : Type} `{EqDecision K}.
Implicit Types (k : K) (v : V) (d : list (K * V)).

Lemma dict_mem_get k d : Dict.mem k d = true ↔ is_Some (Dict.get k d).
Proof.
  unfold Dict.mem. destruct (Dict.get k d); split; try done; eauto.
Qed.

Lemma dict_mem_false k d : Dict.mem k d = false ↔ Dict.get k d = None.
Proof. unfold Dict.mem. by destruct (Dict.get k d). Qed.

Lemma dict_get_set k k' v d :
  Dict.get k' (Dict.set k v d) = if decide (k' = k) then Some v else Dict.get k' d.
Proof.
  induction d as [|[k0 v0] d IH]; simpl.
  - by repeat case_decide.
  - repeat (case_decide; simpl; subst); try congruence.
Qed.

Lemma dict_get_del k k' d :
  Dict.get k' (Dict.del k d) = if decide (k' = k) then None else Dict.get k' d.
Proof.
  induction d as [|[k0 v0] d IH]; simpl.
  - by case_decide.
  - repeat (case_decide; simpl; subst); try congruence.
Qed.

Lemma dict_mem_set k k' v d :
  Dict.mem k' (Dict.set k v d) = if decide (k' = k) then true else Dict.mem k' d.
Proof. unfold Dict.mem. rewrite dict_get_set. by case_decide. Qed.

Lemma dict_mem_del k k' d :
  Dict.mem k' (Dict.del k d) = if decide (k' = k) then false else Dict.mem k' d.
Proof. unfold Dict.mem. rewrite dict_get_del. by case_decide. Qed.

Lemma dict_del_absent k d : Dict.get k d = None → Dict.del k d = d.
Proof.
  induction d as [|[k0 v0] d IH]; simpl; [done|].
  case_decide; [done|]. intros Hg. by rewrite IH.
Qed.

Lemma dict_get_head_keys k d : k ∈ Dict.keys d ↔ is_Some (Dict.get k d).
Proof.
  unfold Dict.keys. induction d as [|[k0 v0] d IH]; csimpl.
  - split; [by intros ?%elem_of_nil | by intros []].
  - rewrite elem_of_cons, IH. case_decide.
    + split; [by eauto | by left].
    + split; [by intros [?|?] | by right].
Qed.
Lemma dict_keys_set_absent k v d :
  Dict.get k d = None → Dict.keys (Dict.set k v d) = Dict.keys d ++ [k].
Proof.
  unfold Dict.keys. induction d as [|[k0 v0] d IH]; csimpl; [done|].
  case_decide; [done|]. intros Hg. csimpl. by rewrite IH.
Qed.

Lemma dict_keys_del k d :
  Dict.keys (Dict.del k d) = filter (λ k', k' ≠ k) (Dict.keys d).
Proof.
  unfold Dict.keys. induction d as [|[k0 v0] d IH]; csimpl; [done|].
  case_decide; subst.
  - rewrite filter_cons_False by naive_solver. done.
  - rewrite filter_cons_True by naive_solver. csimpl. by rewrite IH.
Qed.

Lemma dict_keys_set_NoDup k v d :
  Dict.get k d = None → NoDup (Dict.keys d) → NoDup (Dict.keys (Dict.set k v d)).
Proof.
  intros Hg Hnd. rewrite dict_keys_set_absent by done.
  apply NoDup_app. split; [done|]. split; [|apply NoDup_singleton].
  intros k' Hin ->%list_elem_of_singleton.
  apply dict_get_head_keys in Hin. rewrite Hg in Hin. by destruct Hin.
Qed.

Lemma dict_keys_del_NoDup k d :
  NoDup (Dict.keys d) → NoDup (Dict.keys (Dict.del k d)).
Proof. intros Hnd. rewrite dict_keys_del. by apply NoDup_filter. Qed.

Lemma dict_del_head k v d :
  k ∉ Dict.keys d → Dict.del k ((k, v) :: d) = d.
Proof.
  intros Hk. simpl. case_decide; [|done]. apply dict_del_absent.
  destruct (Dict.get k d) eqn:Hg; [|done].
  exfalso. apply Hk, dict_get_head_keys. by rewrite Hg.
Qed.
End dict_facts.

Lemma alter_lookup_insert `{Countable K} {A} (f : A → A) (m : gmap K A) k x :
  m !! k = Some x → alter f k m = <[k := f x]> m.
Proof.
  intros Hk. apply map_eq. intros j. destruct (decide (k = j)) as [->|].
  - by rewrite lookup_alter_eq, lookup_insert_eq, Hk.
  - by rewrite lookup_alter_ne, lookup_insert_ne.
Qed.

(** ** Entity identifiers *)

(** C10: a falsy supplied identifier (None, False, 0, the empty string) is
    ignored and the generated UUID text becomes the id; a truthy identifier
    is used as it is. *)
Theorem entity_init_falsy_id (entity_id : Py.value) (uuid4 : string) :
  (Py.truthy entity_id = false → id (Entity_init entity_id uuid4) = Py.VStr uuid4) ∧
  (Py.truthy entity_id = true → id (Entity_init entity_id uuid4) = entity_id) ∧
  id (Entity_init (Py.VInt 0) uuid4) = Py.VStr uuid4 ∧
  id (Entity_init (Py.VStr "") uuid4) = Py.VStr uuid4 ∧
  id (Entity_init (Py.VBool false) uuid4) = Py.VStr uuid4 ∧
  id (Entity_init Py.VNone uuid4) = Py.VStr uuid4.
Proof.
  unfold Entity_init, Py.or_; simpl.
  repeat split; try reflexivity; intros ->; reflexivity.
Qed.

(** ** Attaching and detaching *)

Section entity_facts.
Context `{Hk : Hooks}.
Implicit Types (h : Heap) (e : Entity) (c : Component) (T : ctype).

Lemma add_component_duplicate_eq h self component e c :
  ents h !! self = Some e →
  comps h !! component = Some c →
  Dict.mem (cclass c) (components e) = true →
  add_component self component h =
    (h, Raise (ValueError ("Entity already has a component of type "
                             +:+ class_name (cclass c)))).
Proof.
  intros He Hc Hm.
  unfold add_component, get_component_type, read_component, read_entity, bind, ret.
  rewrite Hc, He, Hm. reflexivity.
Qed.

Lemma add_component_fresh_eq h self component e c :
  ents h !! self = Some e →
  comps h !! component = Some c →
  Dict.mem (cclass c) (components e) = false →
  add_component self component h =
    (on_add component (linked self component e c h), Ok self).
Proof.
  intros He Hc Hm.
  unfold add_component, get_component_type, read_component, read_entity, bind, ret.
  rewrite Hc, He, Hm.
  unfold _set_entity, update_component, update_entity, _entity_component_added,
    read_entity, read_component, update_world, call_hook, bind, ret,
    with_comps, with_ents, with_world; simpl.
  rewrite lookup_alter_eq, He; simpl.
  rewrite lookup_alter_eq, Hc; simpl.
  unfold linked.
  rewrite (alter_lookup_insert _ _ _ _ He), (alter_lookup_insert _ _ _ _ Hc).
  reflexivity.
Qed.

Lemma remove_component_absent_eq h self T e :
  ents h !! self = Some e →
  Dict.get T (components e) = None →
  remove_component self T h = (h, Ok None).
Proof.
  intros He Hg. unfold remove_component, read_entity, bind, ret.
  rewrite He, Hg. reflexivity.
Qed.

Lemma remove_component_present_eq h self T e component e1 c1 :
  ents h !! self = Some e →
  Dict.get T (components e) = Some component →
  ents (on_remove component h) !! self = Some e1 →
  Dict.mem T (components e1) = true →
  comps (on_remove component h) !! component = Some c1 →
  remove_component self T h =
    (unlinked self T e1 c1 (on_remove component h), Ok (Some component)).
Proof.
  intros He Hg He1 Hm Hc1.
  unfold remove_component, read_entity, bind, ret.
  rewrite He, Hg. unfold call_hook. rewrite He1, Hm.
  unfold update_entity, _entity_component_removed, read_entity, read_component,
    update_world, bind, ret, with_ents, with_world; simpl.
  rewrite lookup_alter_eq, He1; simpl. rewrite Hc1; simpl.
  unfold unlinked. rewrite (alter_lookup_insert _ _ _ _ He1). reflexivity.
Qed.

(** What a data-only hook leaves in place. *)
Lemma data_only_ents f (k : cref) h : data_only f → ents (f k h) = ents h.
Proof. intros Hf. apply Hf. Qed.

Lemma data_only_world f (k : cref) h : data_only f → world (f k h) = world h.
Proof. intros Hf. apply Hf. Qed.

Lemma data_only_class f (k k' : cref) h x :
  data_only f → comps h !! k' = Some x →
  ∃ x', comps (f k h) !! k' = Some x' ∧ cclass x' = cclass x.
Proof.
  intros Hf Hx. destruct (Hf k h) as (_ & _ & Hcl). specialize (Hcl k').
  rewrite Hx in Hcl. destruct (comps (f k h) !! k') as [x'|]; simplify_eq/=.
  eauto.
Qed.

(** C2: attaching a component whose class is already attached raises the
    duplicate-component error (a ValueError in the source) and the store is
    the one before the call: the entity's mapping, tags and active flag, the
    component and the world's indexes are untouched. *)
Theorem add_component_duplicate_rejected h self component e c :
  ents h !! self = Some e →
  comps h !! component = Some c →
  is_Some (Dict.get (cclass c) (components e)) →
  ∃ msg, add_component self component h = (h, Raise (ValueError msg)) ∧
         ents (exec (add_component self component) h) !! self = Some e ∧
         world (exec (add_component self component) h) = world h.
Proof.
  intros He Hc Hm%dict_mem_get.
  eexists. unfold exec.
  rewrite (add_component_duplicate_eq _ _ _ _ _ He Hc Hm). simpl. eauto.
Qed.

(** C3 as amended: attaching to entity [r2] an instance that entity [r1]
    already holds raises nothing.  The instance is stored in [r2]'s mapping,
    its back-reference is overwritten with [r2], and [r1]'s mapping still
    holds the instance. *)
Theorem add_component_shares_instance h r1 r2 component x1 x2 c :
  r1 ≠ r2 →
  ents h !! r1 = Some x1 →
  ents h !! r2 = Some x2 →
  comps h !! component = Some c →
  Dict.get (cclass c) (components x1) = Some component →
  Dict.mem (cclass c) (components x2) = false →
  ∃ h', add_component r2 component h = (on_add component h', Ok r2) ∧
        get_component r1 (cclass c) h' = (h', Ok (Some component)) ∧
        get_component r2 (cclass c) h' = (h', Ok (Some component)) ∧
        get_entity component h' = (h', Ok (Some r2)).
Proof.
  intros Hne H1 H2 Hc Hg Hm.
  exists (linked r2 component x2 c h). split.
  - by apply add_component_fresh_eq.
  - unfold get_component, get_entity, read_entity, read_component, bind, ret, linked;
      simpl.
    rewrite lookup_insert_ne, H1 by done. rewrite !lookup_insert_eq. simpl.
    rewrite Hg, dict_get_set. by case_decide.
Qed.

(** C4: when the class is not attached yet, [add_component] sets the
    back-reference, stores the component and updates the world's type index,
    runs the on-attach hook on that store, and returns the entity. *)
Theorem add_component_links_before_hook h self component e c :
  ents h !! self = Some e →
  comps h !! component = Some c →
  Dict.mem (cclass c) (components e) = false →
  ∃ h', add_component self component h = (on_add component h', Ok self) ∧
        h' = linked self component e c h ∧
        get_entity component h' = (h', Ok (Some self)) ∧
        get_component self (cclass c) h' = (h', Ok (Some component)) ∧
        id e ∈ type_ids (world h') (cclass c).
Proof.
  intros He Hc Hm.
  exists (linked self component e c h). split; [by apply add_component_fresh_eq|].
  split; [done|].
  unfold get_component, get_entity, read_entity, read_component, bind, ret, linked,
    type_ids, set_type_ids; simpl.
  rewrite !lookup_insert_eq. simpl. rewrite dict_get_set.
  case_decide; [|done]. repeat split. set_solver.
Qed.

(** C5: [remove_component] on a class that is not attached returns None and
    the store is unchanged.  On an attached class the on-detach hook runs
    first, on the store in which the component is still attached; then the
    entry is deleted, the world's type index is updated and the component is
    returned. *)
Theorem remove_component_spec h self T e :
  data_only on_remove →
  ents h !! self = Some e →
  match Dict.get T (components e) with
  | None => remove_component self T h = (h, Ok None)
  | Some component =>
      ∀ c, comps h !! component = Some c →
        get_component self T h = (h, Ok (Some component)) ∧
        ∃ c1, comps (on_remove component h) !! component = Some c1 ∧
              remove_component self T h =
                (unlinked self T e c1 (on_remove component h), Ok (Some component)) ∧
              get_component self T (unlinked self T e c1 (on_remove component h)) =
                (unlinked self T e c1 (on_remove component h), Ok None) ∧
              type_ids (world (unlinked self T e c1 (on_remove component h))) (cclass c) =
                type_ids (world h) (cclass c) ∖ {[id e]}
  end.
Proof.
  intros Hd He. destruct (Dict.get T (components e)) as [component|] eqn:Hg.
  - intros c Hc. split.
    { unfold get_component, read_entity, bind, ret. by rewrite He, Hg. }
    destruct (data_only_class _ component component h c Hd Hc) as (c1 & Hc1 & Hcl).
    exists c1. split; [done|]. split; [|split].
    + apply (remove_component_present_eq _ _ _ e); auto.
      * by rewrite data_only_ents.
      * apply dict_mem_get. by rewrite Hg.
    + unfold get_component, read_entity, bind, ret, unlinked; simpl.
      rewrite lookup_insert_eq; simpl. rewrite dict_get_del. by case_decide.
    + unfold unlinked, type_ids, set_type_ids; simpl.
      rewrite Hcl, lookup_insert_eq; simpl. by rewrite data_only_world.
  - by apply (remove_component_absent_eq _ _ _ e).
Qed.

(** C9: [remove_component] itself changes no component object: the
    component store after the call is the one the on-detach hook left.  When
    the hook leaves the detached component alone, as [Component.on_remove]
    does, its back-reference still names the entity it was detached from. *)
Theorem remove_component_keeps_back_reference h self T e component c :
  data_only on_remove →
  ents h !! self = Some e →
  Dict.get T (components e) = Some component →
  comps h !! component = Some c →
  ∃ h', remove_component self T h = (h', Ok (Some component)) ∧
        comps h' = comps (on_remove component h) ∧
        get_component self T h' = (h', Ok None) ∧
        (comps (on_remove component h) !! component = Some c →
         comps h' !! component = Some c ∧
         (entity c = Some self → get_entity component h' = (h', Ok (Some self)))).
Proof.
  intros Hd He Hg Hc.
  destruct (data_only_class _ component component h c Hd Hc) as (c1 & Hc1 & Hcl).
  exists (unlinked self T e c1 (on_remove component h)). split; [|split; [|split]].
  - apply (remove_component_present_eq _ _ _ e); auto.
    + by rewrite data_only_ents.
    + apply dict_mem_get. by rewrite Hg.
  - done.
  - unfold get_component, read_entity, bind, ret, unlinked; simpl.
    rewrite lookup_insert_eq; simpl. rewrite dict_get_del. by case_decide.
  - intros Hsame. split; [done|]. intros Hent.
    unfold get_entity, read_component, bind, ret, unlinked; simpl.
    by rewrite Hsame, Hent.
Qed.

End entity_facts.

(** ** The indexes under updates of one entity *)

Section consistency.
Implicit Types (h : Heap) (x : Entity) (w : World) (T : ctype).

Lemma type_ids_set T0 s w T :
  type_ids (set_type_ids T0 s w) T = if decide (T = T0) then s else type_ids w T.
Proof.
  unfold type_ids, set_type_ids; simpl. rewrite lookup_insert.
  repeat case_decide; simplify_eq; done.
Qed.

Lemma tag_ids_set t0 s w (t : tag) :
  tag_ids (set_tag_ids t0 s w) t = if decide (t = t0) then s else tag_ids w t.
Proof.
  unfold tag_ids, set_tag_ids; simpl. rewrite lookup_insert.
  repeat case_decide; simplify_eq; done.
Qed.

Lemma is_live_spec r h :
  is_live r h = true ↔
  ∃ x, ents h !! r = Some x ∧ registry (world h) !! id x = Some r.
Proof.
  unfold is_live. destruct (ents h !! r) as [x|]; [|naive_solver].
  rewrite bool_decide_eq_true. naive_solver.
Qed.

Lemma entity_of_live h r x :
  ents h !! r = Some x → registry (world h) !! id x = Some r →
  entity_of h (id x) = Some x.
Proof. intros He Hr. unfold entity_of. rewrite Hr. simpl. done. Qed.

Lemma entity_of_update h r x x' cs w' :
  index_consistent h →
  ents h !! r = Some x →
  registry (world h) !! id x = Some r →
  registry w' = registry (world h) →
  ∀ i, entity_of (mkHeap (<[r := x']> (ents h)) cs w') i =
       if decide (i = id x) then Some x' else entity_of h i.
Proof.
  intros Hic He Hr Hw i. unfold entity_of; simpl. rewrite Hw.
  case_decide as Hi; subst.
  - rewrite Hr; simpl. by rewrite lookup_insert_eq.
  - destruct (registry (world h) !! i) as [r'|] eqn:Hi'; simpl; [|done].
    rewrite lookup_insert_ne; [done|]. intros <-.
    destruct (ic_registry _ Hic _ _ Hi') as (x0 & Hx0 & Hid). congruence.
Qed.

(** Replacing a registered entity by one with the same id, with indexes
    that moved the same way. *)
Lemma consistent_update h r x x' cs w' :
  index_consistent h →
  ents h !! r = Some x →
  registry (world h) !! id x = Some r →
  id x' = id x →
  registry w' = registry (world h) →
  (∀ T i, i ∈ type_ids w' T ↔
          if decide (i = id x) then Dict.mem T (components x') = true
          else i ∈ type_ids (world h) T) →
  (∀ (t : tag) i, i ∈ tag_ids w' t ↔
          if decide (i = id x) then t ∈ tags x' else i ∈ tag_ids (world h) t) →
  (∀ i, i ∈ active_view w' ↔
          if decide (i = id x) then active x' = true
          else i ∈ active_view (world h)) →
  index_consistent (mkHeap (<[r := x']> (ents h)) cs w').
Proof.
  intros Hic He Hr Hid Hw Hty Htg Hac.
  pose proof (entity_of_update h r x x' cs w' Hic He Hr Hw) as Heo.
  split.
  - simpl. rewrite Hw. intros i r' Hi.
    destruct (decide (r' = r)) as [->|Hne].
    + rewrite lookup_insert_eq. eexists; split; [done|].
      destruct (ic_registry _ Hic _ _ Hi) as (x0 & Hx0 & Hid0). congruence.
    + rewrite lookup_insert_ne by done. by apply (ic_registry _ Hic).
  - intros T i. simpl. rewrite Hty, Heo. case_decide; [naive_solver|].
    apply (ic_type _ Hic).
  - intros t i. simpl. rewrite Htg, Heo. case_decide; [naive_solver|].
    apply (ic_tag _ Hic).
  - intros i. simpl. rewrite Hac, Heo. case_decide; [naive_solver|].
    apply (ic_active _ Hic).
Qed.

(** What the indexes say about a registered entity. *)
Lemma live_type_ids h r x T :
  index_consistent h → ents h !! r = Some x →
  registry (world h) !! id x = Some r →
  id x ∈ type_ids (world h) T ↔ Dict.mem T (components x) = true.
Proof.
  intros Hic He Hr. rewrite (ic_type _ Hic), (entity_of_live _ _ _ He Hr).
  naive_solver.
Qed.

Lemma live_tag_ids h r x (t : tag) :
  index_consistent h → ents h !! r = Some x →
  registry (world h) !! id x = Some r →
  id x ∈ tag_ids (world h) t ↔ t ∈ tags x.
Proof.
  intros Hic He Hr. rewrite (ic_tag _ Hic), (entity_of_live _ _ _ He Hr).
  naive_solver.
Qed.

Lemma live_active h r x :
  index_consistent h → ents h !! r = Some x →
  registry (world h) !! id x = Some r →
  id x ∈ active_view (world h) ↔ active x = true.
Proof.
  intros Hic He Hr. rewrite (ic_active _ Hic), (entity_of_live _ _ _ He Hr).
  naive_solver.
Qed.

Lemma index_consistent_ext h h' :
  ents h' = ents h → world h' = world h →
  index_consistent h → index_consistent h'.
Proof.
  intros He Hw [H1 H2 H3 H4].
  split; unfold entity_of in *; rewrite ?He, ?Hw; done.
Qed.

End consistency.

(** ** Every operation keeps the store well formed *)

Section well_formedness.
Implicit Types (h : Heap) (x : Entity) (w : World) (T : ctype).

Lemma mapping_ok_mono (cs cs' : gmap cref Component) x :
  (∀ k cc, cs !! k = Some cc → ∃ cc', cs' !! k = Some cc' ∧ cclass cc' = cclass cc) →
  mapping_ok cs x → mapping_ok cs' x.
Proof.
  intros Hcs [Hnd Hty]. split; [done|]. intros T k Hg.
  destruct (Hty T k Hg) as (cc & Hcc & <-).
  destruct (Hcs k cc Hcc) as (cc' & ? & ?). by exists cc'.
Qed.

Lemma well_formed_data_only f (k : cref) h :
  data_only f → well_formed h → well_formed (f k h).
Proof.
  intros Hf [Hic Hst]. destruct (Hf k h) as (He & Hw & Hcl). split.
  - by apply (index_consistent_ext h).
  - intros r x Hx. rewrite He in Hx. eapply mapping_ok_mono; [|by eapply Hst].
    intros k' cc Hcc. specialize (Hcl k'). rewrite Hcc in Hcl.
    destruct (comps (f k h) !! k') as [cc'|]; simplify_eq/=. eauto.
Qed.

Lemma well_formed_new_component T a h :
  well_formed h → well_formed (exec (new_component T a) h).
Proof.
  intros [Hic Hst]. unfold exec, new_component, with_comps; simpl. split.
  - by apply (index_consistent_ext h).
  - intros r x Hx. simpl in *. eapply mapping_ok_mono; [|by eapply Hst].
    intros k cc Hcc. exists cc. split; [|done].
    rewrite lookup_insert_ne; [done|]. intros <-.
    assert (fresh (dom (comps h)) ∈ dom (comps h)) as Hin
      by (apply elem_of_dom; eauto).
    by apply is_fresh in Hin.
Qed.

Lemma well_formed_linked h r k x c :
  well_formed h →
  ents h !! r = Some x →
  registry (world h) !! id x = Some r →
  comps h !! k = Some c →
  Dict.mem (cclass c) (components x) = false →
  well_formed (linked r k x c h).
Proof.
  intros [Hic Hst] He Hr Hc Hm. unfold linked. split.
  - apply (consistent_update h r x); auto; simpl.
    + intros T i. rewrite type_ids_set, dict_mem_set.
      pose proof (live_type_ids h r x T Hic He Hr).
      repeat case_decide; subst; set_solver.
    + intros t i. case_decide; subst; [|done]. by apply (live_tag_ids h r).
    + intros i. case_decide; subst; [|done]. by apply (live_active h r).
  - intros r' x' Hx'. simpl in *.
    assert (∀ y, mapping_ok (comps h) y →
                 mapping_ok (<[k:=set_entity_ref (Some r) c]> (comps h)) y) as Hmono.
    { intros y. apply mapping_ok_mono. intros k' cc Hcc.
      destruct (decide (k' = k)) as [->|].
      - rewrite lookup_insert_eq. eexists; split; [done|]. simpl. congruence.
      - rewrite lookup_insert_ne by done. eauto. }
    destruct (decide (r' = r)) as [->|Hne].
    + rewrite lookup_insert_eq in Hx'. simplify_eq. simpl.
      destruct (Hst r x He) as [Hnd Hty]. split; simpl.
      * apply dict_keys_set_NoDup; [|done]. by apply dict_mem_false.
      * intros T k' Hg. rewrite dict_get_set in Hg. case_decide; simplify_eq.
        -- eexists. rewrite lookup_insert_eq. done.
        -- by apply (Hmono x).
    + rewrite lookup_insert_ne in Hx' by done. apply Hmono. by eapply Hst.
Qed.

Lemma well_formed_unlinked h r T k x c1 :
  well_formed h →
  ents h !! r = Some x →
  registry (world h) !! id x = Some r →
  Dict.get T (components x) = Some k →
  comps h !! k = Some c1 →
  well_formed (unlinked r T x c1 h).
Proof.
  intros [Hic Hst] He Hr Hg Hc. unfold unlinked.
  destruct (Hst r x He) as [Hnd Hty].
  destruct (Hty T k Hg) as (cc & Hcc & Hcl). simplify_eq.
  split.
  - apply (consistent_update h r x); auto; simpl.
    + intros T i. rewrite type_ids_set, dict_mem_del.
      pose proof (live_type_ids h r x T Hic He Hr).
      repeat case_decide; subst; set_solver.
    + intros t i. case_decide; subst; [|done]. by apply (live_tag_ids h r).
    + intros i. case_decide; subst; [|done]. by apply (live_active h r).
  - intros r' x' Hx'. simpl in *.
    destruct (decide (r' = r)) as [->|Hne].
    + rewrite lookup_insert_eq in Hx'. simplify_eq. split; simpl.
      * by apply dict_keys_del_NoDup.
      * intros T k' Hg'. rewrite dict_get_del in Hg'. case_decide; [done|].
        by apply Hty.
    + rewrite lookup_insert_ne in Hx' by done. by eapply Hst.
Qed.

End well_formedness.

(** ** Tags, activation, creation and erasure *)

Section more_operations.
Implicit Types (h : Heap) (x : Entity) (w : World) (T : ctype).

Lemma add_tag_eq h self (t : tag) x :
  ents h !! self = Some x →
  add_tag self t h =
    (mkHeap (<[self := set_tags ({[t]} ∪ tags x) x]> (ents h)) (comps h)
            (set_tag_ids t ({[id x]} ∪ tag_ids (world h) t) (world h)),
     Ok self).
Proof.
  intros He.
  unfold add_tag, update_entity, _entity_tag_added, read_entity, update_world,
    bind, ret, with_ents, with_world; simpl.
  rewrite lookup_alter_eq, He; simpl.
  by rewrite (alter_lookup_insert _ _ _ _ He).
Qed.

Lemma remove_tag_eq h self (t : tag) x :
  ents h !! self = Some x →
  remove_tag self t h =
    if bool_decide (t ∈ tags x) then
      (mkHeap (<[self := set_tags (tags x ∖ {[t]}) x]> (ents h)) (comps h)
              (set_tag_ids t (tag_ids (world h) t ∖ {[id x]}) (world h)),
       Ok true)
    else (h, Ok false).
Proof.
  intros He. unfold remove_tag, read_entity, bind, ret. rewrite He.
  case_bool_decide; [|done].
  unfold update_entity, _entity_tag_removed, read_entity, update_world,
    bind, ret, with_ents, with_world; simpl.
  rewrite lookup_alter_eq, He; simpl.
  by rewrite (alter_lookup_insert _ _ _ _ He).
Qed.

Lemma set_active_eq h self (a : bool) x :
  ents h !! self = Some x →
  set_active self a h =
    if negb (eqb (active x) a) then
      (mkHeap (<[self := set_active_flag a x]> (ents h)) (comps h)
              (set_active_view
                 (if a then {[id x]} ∪ active_view (world h)
                  else active_view (world h) ∖ {[id x]}) (world h)),
       Ok self)
    else (h, Ok self).
Proof.
  intros He. unfold set_active, read_entity, bind, ret. rewrite He.
  destruct (negb (eqb (active x) a)); [|done].
  unfold update_entity, _entity_active_changed, read_entity, update_world,
    bind, ret, with_ents, with_world; simpl.
  rewrite lookup_alter_eq, He; simpl.
  by rewrite (alter_lookup_insert _ _ _ _ He).
Qed.

Lemma store_ok_update h r x x' w' :
  store_ok h → ents h !! r = Some x → components x' = components x →
  store_ok (mkHeap (<[r := x']> (ents h)) (comps h) w').
Proof.
  intros Hst He Hc r' y Hy. simpl in *.
  destruct (decide (r' = r)) as [->|Hne].
  - rewrite lookup_insert_eq in Hy. simplify_eq.
    unfold mapping_ok. rewrite Hc. by apply (Hst r).
  - rewrite lookup_insert_ne in Hy by done. by eapply Hst.
Qed.

Lemma well_formed_add_tag h r (t : tag) :
  well_formed h → is_live r h = true → well_formed (exec (add_tag r t) h).
Proof.
  intros [Hic Hst] (x & He & Hr)%is_live_spec.
  unfold exec. rewrite (add_tag_eq _ _ _ _ He). simpl. split.
  - apply (consistent_update h r x); auto; simpl.
    + intros T i. case_decide; subst; [|done]. by apply (live_type_ids h r).
    + intros t' i. rewrite tag_ids_set.
      pose proof (live_tag_ids h r x t' Hic He Hr).
      repeat case_decide; subst; set_solver.
    + intros i. case_decide; subst; [|done]. by apply (live_active h r).
  - by apply (store_ok_update h r x).
Qed.

Lemma well_formed_remove_tag h r (t : tag) :
  well_formed h → is_live r h = true → well_formed (exec (remove_tag r t) h).
Proof.
  intros [Hic Hst] (x & He & Hr)%is_live_spec.
  unfold exec. rewrite (remove_tag_eq _ _ _ _ He).
  case_bool_decide; simpl; [|done]. split.
  - apply (consistent_update h r x); auto; simpl.
    + intros T i. case_decide; subst; [|done]. by apply (live_type_ids h r).
    + intros t' i. rewrite tag_ids_set.
      pose proof (live_tag_ids h r x t' Hic He Hr).
      repeat case_decide; subst; set_solver.
    + intros i. case_decide; subst; [|done]. by apply (live_active h r).
  - by apply (store_ok_update h r x).
Qed.

Lemma well_formed_set_active h r (a : bool) :
  well_formed h → is_live r h = true → well_formed (exec (set_active r a) h).
Proof.
  intros [Hic Hst] (x & He & Hr)%is_live_spec.
  unfold exec. rewrite (set_active_eq _ _ _ _ He).
  destruct (negb (eqb (active x) a)) eqn:Hne; simpl; [|done]. split.
  - apply (consistent_update h r x); auto; simpl.
    + intros T i. case_decide; subst; [|done]. by apply (live_type_ids h r).
    + intros t i. case_decide; subst; [|done]. by apply (live_tag_ids h r).
    + intros i. pose proof (live_active h r x Hic He Hr).
      destruct a; case_decide; subst; set_solver.
  - by apply (store_ok_update h r x).
Qed.

Lemma well_formed_create i u h :
  well_formed h → well_formed (exec (create_entity i u) h).
Proof.
  intros [Hic Hst]. unfold exec, create_entity.
  set (e := Entity_init i u).
  assert (components e = [] ∧ tags e = ∅ ∧ active e = true) as (Hcs & Htg & Hac)
    by done.
  clearbody e.
  destruct (registry (world h) !! id e) as [r0|] eqn:Hreg; simpl; [done|].
  set (r := fresh (dom (ents h))).
  assert (ents h !! r = None) as Hfresh.
  { apply not_elem_of_dom. apply is_fresh. }
  clearbody r.
  assert (∀ j, entity_of
            (mkHeap (<[r:=e]> (ents h)) (comps h)
               (mkWorld (<[id e:=r]> (registry (world h))) (by_type (world h))
                  (by_tag (world h)) ({[id e]} ∪ active_view (world h)))) j =
          if decide (j = id e) then Some e else entity_of h j) as Heo.
  { intros j. unfold entity_of; simpl. case_decide as Hj; subst.
    - rewrite lookup_insert_eq; simpl. by rewrite lookup_insert_eq.
    - rewrite lookup_insert_ne by done.
      destruct (registry (world h) !! j) as [r'|] eqn:Hj'; simpl; [|done].
      rewrite lookup_insert_ne; [done|]. intros <-.
      destruct (ic_registry _ Hic _ _ Hj') as (x0 & Hx0 & _). congruence. }
  assert (entity_of h (id e) = None) as Hnone.
  { unfold entity_of. by rewrite Hreg. }
  split; [split|].
  - simpl. intros j r' Hj. destruct (decide (j = id e)) as [->|Hne].
    + rewrite lookup_insert_eq in Hj. simplify_eq.
      rewrite lookup_insert_eq. eauto.
    + rewrite lookup_insert_ne in Hj by done.
      destruct (ic_registry _ Hic _ _ Hj) as (x0 & Hx0 & Hid).
      exists x0. split; [|done]. rewrite lookup_insert_ne; [done|].
      intros <-. congruence.
  - intros T j. rewrite Heo. simpl.
    change (type_ids _ T) with (type_ids (world h) T).
    rewrite (ic_type _ Hic). case_decide; subst; [|done].
    rewrite Hnone. split; [naive_solver|]. intros (x & ? & Hm). simplify_eq.
    by rewrite Hcs in Hm.
  - intros t j. rewrite Heo. simpl.
    change (tag_ids _ t) with (tag_ids (world h) t).
    rewrite (ic_tag _ Hic). case_decide; subst; [|done].
    rewrite Hnone. split; [naive_solver|]. intros (x & ? & Hm). simplify_eq.
    rewrite Htg in Hm. set_solver.
  - intros j. rewrite Heo. simpl. rewrite elem_of_union, (ic_active _ Hic).
    case_decide; subst.
    + split; [|set_solver]. intros _. by exists e.
    + set_solver.
  - intros r' x Hx. simpl in *.
    destruct (decide (r' = r)) as [->|Hne].
    + rewrite lookup_insert_eq in Hx. simplify_eq. split; rewrite Hcs.
      * constructor.
      * intros T k Hg. done.
    + rewrite lookup_insert_ne in Hx by done. by eapply Hst.
Qed.

Lemma type_ids_erase i w T : type_ids (erase i w) T = type_ids w T ∖ {[i]}.
Proof.
  unfold type_ids, erase; simpl. rewrite lookup_fmap.
  destruct (by_type w !! T); simpl; set_solver.
Qed.

Lemma tag_ids_erase i w (t : tag) : tag_ids (erase i w) t = tag_ids w t ∖ {[i]}.
Proof.
  unfold tag_ids, erase; simpl. rewrite lookup_fmap.
  destruct (by_tag w !! t); simpl; set_solver.
Qed.

Lemma erase_absent i w : absent_from_indexes i (erase i w).
Proof.
  repeat split.
  - simpl. apply lookup_delete_eq.
  - intros T. rewrite type_ids_erase. set_solver.
  - intros t. rewrite tag_ids_erase. set_solver.
  - simpl. set_solver.
Qed.

Lemma well_formed_erase h r x :
  well_formed h → ents h !! r = Some x →
  well_formed (with_world (erase (id x)) h).
Proof.
  intros [Hic Hst] He. unfold with_world.
  assert (∀ j, entity_of (mkHeap (ents h) (comps h) (erase (id x) (world h))) j =
               if decide (j = id x) then None else entity_of h j) as Heo.
  { intros j. unfold entity_of; simpl. case_decide; subst.
    - by rewrite lookup_delete_eq.
    - by rewrite lookup_delete_ne. }
  split; [split|].
  - simpl. intros j r' Hj. apply lookup_delete_Some in Hj as [? Hj].
    by apply (ic_registry _ Hic).
  - intros T j. rewrite Heo. simpl. rewrite type_ids_erase.
    rewrite elem_of_difference, (ic_type _ Hic), elem_of_singleton.
    case_decide; naive_solver.
  - intros t j. rewrite Heo. simpl. rewrite tag_ids_erase.
    rewrite elem_of_difference, (ic_tag _ Hic), elem_of_singleton.
    case_decide; naive_solver.
  - intros j. rewrite Heo. simpl.
    rewrite elem_of_difference, (ic_active _ Hic), elem_of_singleton.
    case_decide; naive_solver.
  - intros r' y Hy. simpl in *. by eapply Hst.
Qed.

Lemma well_formed_empty : well_formed empty_heap.
Proof.
  split; [split|]; simpl.
  - intros i r Hi. by rewrite lookup_empty in Hi.
  - intros T i. unfold type_ids, entity_of; simpl. rewrite !lookup_empty; simpl.
    split; [set_solver|naive_solver].
  - intros t i. unfold tag_ids, entity_of; simpl. rewrite !lookup_empty; simpl.
    split; [set_solver|naive_solver].
  - intros i. unfold entity_of; simpl. rewrite lookup_empty; simpl.
    split; [set_solver|naive_solver].
  - intros r x Hx. simpl in Hx. by rewrite lookup_empty in Hx.
Qed.

End more_operations.

(** ** Destroying an entity *)

Section destroy_facts.
Context `{Hk : Hooks}.
Implicit Types (h : Heap) (x : Entity) (w : World) (T : ctype).

Lemma set_components_same x : set_components (components x) x = x.
Proof. by destruct x. Qed.

(** The loop of [destroy] over the key snapshot is [detach_each] over the
    entries. *)
Lemma for_each_detach self (cs : list (ctype * cref)) :
  data_only on_remove →
  ∀ h x,
    ents h !! self = Some x →
    components x = cs →
    NoDup (Dict.keys cs) →
    (∀ T k, (T, k) ∈ cs → is_Some (comps h !! k)) →
    for_each (Dict.keys cs) (λ T, remove_component self T ;;; ret tt) h =
      (detach_each self cs h, Ok tt) ∧
    ents (detach_each self cs h) = <[self := set_components [] x]> (ents h) ∧
    registry (world (detach_each self cs h)) = registry (world h) ∧
    (well_formed h → registry (world h) !! id x = Some self →
     well_formed (detach_each self cs h)).
Proof.
  intros Hd. induction cs as [|[T k] cs IH]; intros h x He Hcs Hnd Hex.
  - simpl. split; [done|]. split; [|by split].
    rewrite <- Hcs, set_components_same. by rewrite insert_id.
  - unfold Dict.keys in Hnd. rewrite fmap_cons in Hnd. simpl in Hnd.
    apply NoDup_cons in Hnd as [Hnotin Hnd].
    destruct (Hex T k) as [c Hc]; [by left|].
    destruct (data_only_class _ k k h c Hd Hc) as (c1 & Hc1 & Hcl).
    assert (ents (on_remove k h) !! self = Some x) as He1
      by (by rewrite data_only_ents).
    assert (Dict.get T (components x) = Some k) as Hg.
    { rewrite Hcs. simpl. by rewrite decide_True. }
    assert (remove_component self T h =
            (unlinked self T x c1 (on_remove k h), Ok (Some k))) as Hrm.
    { apply (remove_component_present_eq _ _ _ x); auto.
      apply dict_mem_get. by rewrite Hg. }
    set (x' := set_components (Dict.del T (components x)) x).
    destruct (IH (unlinked self T x c1 (on_remove k h)) x') as (E1 & E2 & E3 & E4).
    { unfold unlinked; simpl. by rewrite lookup_insert_eq. }
    { unfold x'; simpl. rewrite Hcs. by apply dict_del_head. }
    { done. }
    { intros T' k' Hin. unfold unlinked; simpl.
      destruct (Hex T' k') as [c' Hc']; [by right|].
      destruct (data_only_class _ k k' h c' Hd Hc') as (c'' & ? & _). eauto. }
    assert (detach_each self ((T, k) :: cs) h =
            detach_each self cs (unlinked self T x c1 (on_remove k h))) as Hstep.
    { simpl. by rewrite He1, Hc1. }
    rewrite Hstep. split; [|split; [|split]].
    + unfold Dict.keys. rewrite fmap_cons. simpl.
      unfold bind at 1. unfold bind at 1. rewrite Hrm. unfold ret at 1.
      apply E1.
    + rewrite E2. unfold unlinked; simpl. rewrite insert_insert_eq.
      by rewrite (data_only_ents _ _ _ Hd).
    + rewrite E3. unfold unlinked; simpl. by rewrite (data_only_world _ _ _ Hd).
    + intros Hwf Hreg. apply E4.
      * apply well_formed_unlinked with (k := k); auto.
        -- by apply well_formed_data_only.
        -- by rewrite (data_only_world _ _ _ Hd).
      * unfold unlinked; simpl. by rewrite (data_only_world _ _ _ Hd).
Qed.

Lemma mapping_ok_entries h x :
  mapping_ok (comps h) x →
  NoDup (Dict.keys (components x)) ∧
  ∀ T k, (T, k) ∈ components x → is_Some (comps h !! k).
Proof.
  intros [Hnd Hty]. split; [done|]. intros T k Hin.
  assert (Dict.get T (components x) = Some k) as Hg.
  { clear Hty. induction (components x) as [|[T0 k0] d IH]; [by inversion Hin|].
    unfold Dict.keys in Hnd. rewrite fmap_cons in Hnd. simpl in Hnd.
    apply NoDup_cons in Hnd as [Hnotin Hnd]. simpl.
    apply elem_of_cons in Hin as [Heq|Hin].
    - simplify_eq. by rewrite decide_True.
    - rewrite decide_False; [by apply IH|]. intros ->.
      apply Hnotin. apply list_elem_of_fmap. by exists (T0, k). }
  destruct (Hty T k Hg) as (cc & ? & ?). eauto.
Qed.

Lemma destroy_eq self h x :
  data_only on_remove →
  ents h !! self = Some x →
  mapping_ok (comps h) x →
  destroy self h =
    (with_world (erase (id x)) (detach_each self (components x) h), Ok tt).
Proof.
  intros Hd He [Hnd Hex]%mapping_ok_entries.
  destruct (for_each_detach self (components x) Hd h x He eq_refl Hnd Hex)
    as (E1 & E2 & _ & _).
  unfold destroy, read_entity. unfold bind at 1. rewrite He.
  unfold bind at 1. rewrite E1.
  unfold _remove_entity, read_entity, update_world, bind, ret.
  rewrite E2, lookup_insert_eq. reflexivity.
Qed.

Lemma well_formed_destroy self h :
  data_only on_remove → well_formed h → is_live self h = true →
  well_formed (exec (destroy self) h).
Proof.
  intros Hd Hwf (x & He & Hr)%is_live_spec.
  pose proof (wf_store _ Hwf _ _ He) as Hmap.
  unfold exec. rewrite (destroy_eq _ _ _ Hd He Hmap). simpl.
  destruct (mapping_ok_entries _ _ Hmap) as [Hnd Hex].
  destruct (for_each_detach self (components x) Hd h x He eq_refl Hnd Hex)
    as (_ & E2 & _ & E4).
  replace (id x) with (id (set_components [] x)) by done.
  apply well_formed_erase with (r := self); [by apply E4|].
  by rewrite E2, lookup_insert_eq.
Qed.

(** Every operation of a sequence keeps the store well formed. *)
Lemma well_formed_exec_op o h :
  data_only on_add → data_only on_remove →
  well_formed h → well_formed (exec_op o h).
Proof.
  intros Ha Hd Hwf. destruct o as [i u|T a|e c|e T|e t|e t|e a|e]; simpl;
    try (unfold on_live; destruct (is_live e h) eqn:Hlive; [|done]).
  - by apply well_formed_create.
  - by apply well_formed_new_component.
  - apply is_live_spec in Hlive as (x & He & Hr). unfold exec.
    destruct (comps h !! c) as [cc|] eqn:Hc.
    + destruct (Dict.mem (cclass cc) (components x)) eqn:Hm.
      * by rewrite (add_component_duplicate_eq _ _ _ _ _ He Hc Hm).
      * rewrite (add_component_fresh_eq _ _ _ _ _ He Hc Hm). simpl.
        apply well_formed_data_only; [done|]. by apply well_formed_linked.
    + unfold add_component, get_component_type, read_component, bind.
      by rewrite Hc.
  - apply is_live_spec in Hlive as (x & He & Hr). unfold exec.
    destruct (Dict.get T (components x)) as [k|] eqn:Hg.
    + destruct (wf_store _ Hwf _ _ He) as [_ Hty].
      destruct (Hty T k Hg) as (cc & Hcc & _).
      destruct (data_only_class _ k k h cc Hd Hcc) as (c1 & Hc1 & _).
      rewrite (remove_component_present_eq _ _ _ x k x c1); auto.
      * simpl. apply well_formed_unlinked with (k := k); auto.
        -- by apply well_formed_data_only.
        -- by rewrite data_only_ents.
        -- by rewrite (data_only_world _ _ _ Hd).
      * by rewrite data_only_ents.
      * apply dict_mem_get. by rewrite Hg.
    + by rewrite (remove_component_absent_eq _ _ _ _ He Hg).
  - by apply well_formed_add_tag.
  - by apply well_formed_remove_tag.
  - by apply well_formed_set_active.
  - by apply well_formed_destroy.
Qed.

Lemma well_formed_run ops h :
  data_only on_add → data_only on_remove →
  well_formed h → well_formed (run ops h).
Proof.
  intros Ha Hd. revert h. unfold run.
  induction ops as [|o ops IH]; intros h Hwf; simpl; [done|].
  apply IH. by apply well_formed_exec_op.
Qed.

End destroy_facts.

(** ** Queries *)

Section query_facts.
Implicit Types (h : Heap) (x : Entity) (w : World) (T : ctype).

Lemma smallest_in s ss : smallest s ss ∈ s :: ss.
Proof.
  unfold smallest. revert s. induction ss as [|s' ss IH]; intros s; simpl.
  - by left.
  - specialize (IH (if decide (size s' < size s) then s' else s)).
    apply elem_of_cons in IH as [->|IH].
    + case_decide; [right; left|left]; done.
    + right. by right.
Qed.

Lemma elem_of_candidates req w i :
  i ∈ candidates req w ↔
  match req with
  | [] => i ∈ dom (registry w)
  | _ => ∀ T, T ∈ req → i ∈ type_ids w T
  end.
Proof.
  unfold candidates. destruct req as [|T0 req]; csimpl.
  { by rewrite elem_of_elements. }
  rewrite list_elem_of_filter, elem_of_elements.
  change (type_ids w T0 :: (type_ids w <$> req))
    with (type_ids w <$> (T0 :: req)).
  rewrite Forall_fmap, Forall_forall. simpl. split.
  - intros [Hall _] T HT. by apply Hall.
  - intros Hall. split; [by intros T HT; apply Hall|].
    pose proof (smallest_in (type_ids w T0) (type_ids w <$> req)) as Hin.
    change (type_ids w T0 :: (type_ids w <$> req))
      with (type_ids w <$> (T0 :: req)) in Hin.
    apply list_elem_of_fmap in Hin as (T & -> & HT). by apply Hall.
Qed.

Lemma elem_of_query req incl w r :
  r ∈ query req incl w ↔
  ∃ i, registry w !! i = Some r ∧ (incl = true ∨ i ∈ active_view w) ∧
       i ∈ candidates req w.
Proof.
  unfold query. rewrite list_elem_of_omap. setoid_rewrite list_elem_of_filter.
  naive_solver.
Qed.

Lemma NoDup_candidates req w : NoDup (candidates req w).
Proof.
  unfold candidates. destruct (type_ids w <$> req).
  - apply NoDup_elements.
  - apply NoDup_filter, NoDup_elements.
Qed.

Lemma NoDup_omap_inj {A B} (f : A → option B) (l : list A) :
  (∀ a a' b, f a = Some b → f a' = Some b → a = a') →
  NoDup l → NoDup (omap f l).
Proof.
  intros Hinj. induction 1 as [|a l Hnotin Hnd IH]; csimpl; [constructor|].
  destruct (f a) as [b|] eqn:Hfa; [|done].
  constructor; [|done]. intros (a' & Hin & Hfa')%list_elem_of_omap.
  by rewrite (Hinj _ _ _ Hfa Hfa') in Hnotin.
Qed.

Lemma NoDup_query h req incl :
  index_consistent h → NoDup (query req incl (world h)).
Proof.
  intros Hic. unfold query. apply NoDup_omap_inj.
  - intros i i' r Hi Hi'.
    destruct (ic_registry _ Hic _ _ Hi) as (x & Hx & <-).
    destruct (ic_registry _ Hic _ _ Hi') as (x' & Hx' & <-). congruence.
  - apply NoDup_filter, NoDup_candidates.
Qed.

(** With consistent indexes, [query] returns the registered entities that
    hold every required class, the inactive ones only on request. *)
Lemma query_exact h req incl r :
  index_consistent h →
  r ∈ query req incl (world h) ↔
  ∃ x, ents h !! r = Some x ∧ registry (world h) !! id x = Some r ∧
       (incl = true ∨ active x = true) ∧
       ∀ T, T ∈ req → Dict.mem T (components x) = true.
Proof.
  intros Hic. rewrite elem_of_query. split.
  - intros (i & Hi & Hact & Hcand).
    destruct (ic_registry _ Hic _ _ Hi) as (x & Hx & <-).
    exists x. split; [done|]. split; [done|]. split.
    + destruct Hact as [?|Hact]; [by left|right].
      by apply (live_active h r x Hic Hx Hi).
    + intros T HT. apply elem_of_candidates in Hcand.
      destruct req as [|T0 req]; [by inversion HT|].
      by apply (live_type_ids h r x T Hic Hx Hi), Hcand.
  - intros (x & Hx & Hr & Hact & Hall). exists (id x). split; [done|]. split.
    + destruct Hact as [?|Hact]; [by left|right].
      by apply (live_active h r x Hic Hx Hr).
    + apply elem_of_candidates. destruct req as [|T0 req].
      * apply elem_of_dom. eauto.
      * intros T HT. by apply (live_type_ids h r x T Hic Hx Hr), Hall.
Qed.

End query_facts.

(** ** An entity the registry does not reach stays unreachable *)

Section unreachable.
Context `{Hk : Hooks}.
Implicit Types (h : Heap) (x : Entity) (w : World) (T : ctype).

Lemma exec_bind {S A B} (Q : S → Prop) (m : St S A) (k : A → St S B) (s : S) :
  (∀ s, Q s → Q (exec m s)) →
  (∀ a s, Q s → Q (exec (k a) s)) →
  Q s → Q (exec (bind m k) s).
Proof.
  intros Hm Hk' Hq. specialize (Hm s Hq). unfold exec, bind in *.
  destruct (m s) as [s' [a| |]]; simpl in *; auto.
Qed.

Lemma exec_for_each {A} (Q : Heap → Prop) (l : list A) (body : A → M unit) h :
  (∀ a h, Q h → Q (exec (body a) h)) →
  Q h → Q (exec (for_each l body) h).
Proof.
  intros Hb. revert h. induction l as [|a l IH]; intros h Hq; simpl; [done|].
  apply exec_bind; auto.
Qed.

Lemma unregistered_read_entity r e h :
  unregistered r h → unregistered r (exec (read_entity e) h).
Proof. unfold exec, read_entity. by destruct (ents h !! e). Qed.

Lemma unregistered_read_component r c h :
  unregistered r h → unregistered r (exec (read_component c) h).
Proof. unfold exec, read_component. by destruct (comps h !! c). Qed.

Lemma unregistered_update_entity r e f h :
  unregistered r h → unregistered r (exec (update_entity e f) h).
Proof.
  intros [[x Hx] Hreg]. split; [|done]. simpl.
  destruct (decide (e = r)) as [->|].
  - rewrite lookup_alter_eq, Hx. by eexists.
  - rewrite lookup_alter_ne by done. by eexists.
Qed.

Lemma unregistered_update_component r c f h :
  unregistered r h → unregistered r (exec (update_component c f) h).
Proof. done. Qed.

Lemma unregistered_update_world r (f : World → World) h :
  (∀ w, registry (f w) ⊆ registry w) →
  unregistered r h → unregistered r (exec (update_world f) h).
Proof.
  intros Hf [Hx Hreg]. split; [done|]. simpl. intros i Hi.
  apply (Hreg i). by eapply lookup_weaken.
Qed.

Lemma unregistered_call_hook r f (c : cref) h :
  data_only f → unregistered r h → unregistered r (exec (call_hook f c) h).
Proof.
  intros Hf [Hx Hreg]. unfold exec, call_hook; simpl. split.
  - by rewrite (data_only_ents _ _ _ Hf).
  - by rewrite (data_only_world _ _ _ Hf).
Qed.

Ltac unregistered_step :=
  first
    [ apply exec_bind; [intros ? ?|intros ? ? ?|assumption]
    | by apply unregistered_read_entity
    | by apply unregistered_read_component
    | by apply unregistered_update_entity
    | by apply unregistered_update_component
    | by apply unregistered_call_hook
    | by (apply unregistered_update_world; [intros ?; simpl; done|])
    | done ].

Lemma unregistered_add_component r e c h :
  data_only on_add →
  unregistered r h → unregistered r (exec (add_component e c) h).
Proof.
  intros Ha. revert h. unfold add_component, get_component_type, _set_entity,
    _entity_component_added.
  intros h Hq. repeat unregistered_step.
  case_match; repeat unregistered_step.
Qed.

Lemma unregistered_remove_component r e T h :
  data_only on_remove →
  unregistered r h → unregistered r (exec (remove_component e T) h).
Proof.
  intros Hd. revert h. unfold remove_component, _entity_component_removed.
  intros h Hq. repeat unregistered_step.
  case_match; repeat unregistered_step.
  case_match; repeat unregistered_step.
Qed.

Lemma unregistered_add_tag r e (t : tag) h :
  unregistered r h → unregistered r (exec (add_tag e t) h).
Proof.
  revert h. unfold add_tag, _entity_tag_added.
  intros h Hq. repeat unregistered_step.
Qed.

Lemma unregistered_remove_tag r e (t : tag) h :
  unregistered r h → unregistered r (exec (remove_tag e t) h).
Proof.
  revert h. unfold remove_tag, _entity_tag_removed.
  intros h Hq. repeat unregistered_step.
  case_match; repeat unregistered_step.
Qed.

Lemma unregistered_set_active r e (a : bool) h :
  unregistered r h → unregistered r (exec (set_active e a) h).
Proof.
  revert h. unfold set_active, _entity_active_changed.
  intros h Hq. repeat unregistered_step.
  case_match; repeat unregistered_step.
Qed.

Lemma unregistered_destroy r e h :
  data_only on_remove →
  unregistered r h → unregistered r (exec (destroy e) h).
Proof.
  intros Hd. revert h. unfold destroy, _remove_entity.
  intros h Hq. repeat unregistered_step.
  - apply exec_for_each; [|done]. intros T h' Hq'.
    apply exec_bind; [|done|done]. intros h'' Hq''.
    by apply unregistered_remove_component.
  - apply unregistered_update_world; [|done].
    intros w. simpl. apply delete_subseteq.
Qed.

Lemma unregistered_create r i u h :
  unregistered r h → unregistered r (exec (create_entity i u) h).
Proof.
  intros [[x Hx] Hreg]. unfold exec, create_entity.
  destruct (registry (world h) !! id (Entity_init i u)); simpl; [done|].
  assert (fresh (dom (ents h)) ≠ r) as Hne.
  { intros <-. apply (is_fresh (dom (ents h))), elem_of_dom. by eexists. }
  split; simpl.
  - rewrite lookup_insert_ne by done. by eexists.
  - intros j Hj. destruct (decide (id (Entity_init i u) = j)) as [<-|].
    + rewrite lookup_insert_eq in Hj. congruence.
    + rewrite lookup_insert_ne in Hj by done. by apply (Hreg j).
Qed.

Lemma unregistered_exec_op r o h :
  data_only on_add → data_only on_remove →
  unregistered r h → unregistered r (exec_op o h).
Proof.
  intros Ha Hd Hq. destruct o as [i u|T a|e c|e T|e t|e t|e a|e]; simpl;
    try (unfold on_live; destruct (is_live e h); [|done]).
  - by apply unregistered_create.
  - done.
  - by apply unregistered_add_component.
  - by apply unregistered_remove_component.
  - by apply unregistered_add_tag.
  - by apply unregistered_remove_tag.
  - by apply unregistered_set_active.
  - by apply unregistered_destroy.
Qed.

Lemma unregistered_run r ops h :
  data_only on_add → data_only on_remove →
  unregistered r h → unregistered r (run ops h).
Proof.
  intros Ha Hd. revert h. unfold run.
  induction ops as [|o ops IH]; intros h Hq; simpl; [done|].
  apply IH. by apply unregistered_exec_op.
Qed.

Lemma unregistered_not_in_query r h req incl :
  unregistered r h → r ∉ query req incl (world h).
Proof. intros [_ Hreg] (i & Hi & _)%elem_of_query. by apply (Hreg i). Qed.

End unreachable.

Section world_claims.
Context `{Hk : Hooks}.
Implicit Types (h : Heap) (x : Entity) (w : World) (T : ctype).

(** C1: after any sequence of create/attach/detach/tag/activate/destroy
    operations on a world, [query({T})] lists, each once, exactly the
    entities of the world that are active and hold a component of class [T];
    with [include_inactive] the inactive holders are listed as well. *)
Theorem query_single_type_exact (ops : list op) T (r : eref) :
  data_only on_add →
  data_only on_remove →
  let h := run ops empty_heap in
  NoDup (query [T] false (world h)) ∧
  (r ∈ query [T] false (world h) ↔
     is_live r h = true ∧ is_active r h = (h, Ok true) ∧
     has_component r T h = (h, Ok true)) ∧
  (r ∈ query [T] true (world h) ↔
     is_live r h = true ∧ has_component r T h = (h, Ok true)).
Proof.
  intros Ha Hd h.
  assert (well_formed h) as [Hic _]
    by (by apply well_formed_run, well_formed_empty).
  split; [by apply NoDup_query|].
  rewrite !(query_exact h) by done.
  unfold is_active, has_component, read_entity, bind, ret.
  split; split.
  - intros (x & Hx & Hr & [?|Hact] & Hall); [done|].
    rewrite (proj2 (is_live_spec r h)) by eauto. rewrite Hx, Hact.
    rewrite Hall by (by left). done.
  - intros (Hlive & Hact & Hhas).
    apply is_live_spec in Hlive as (x & Hx & Hr). rewrite Hx in Hact, Hhas.
    exists x. repeat split; auto.
    + right. congruence.
    + intros T' ->%list_elem_of_singleton. congruence.
  - intros (x & Hx & Hr & _ & Hall).
    rewrite (proj2 (is_live_spec r h)) by eauto. rewrite Hx.
    rewrite Hall by (by left). done.
  - intros (Hlive & Hhas).
    apply is_live_spec in Hlive as (x & Hx & Hr). rewrite Hx in Hhas.
    exists x. repeat split; auto.
    intros T' ->%list_elem_of_singleton. congruence.
Qed.

(** C6: [destroy] detaches the attached components one at a time (the first
    detach, hook included, is complete before the rest is destroyed), then
    has the world erase the entity.  Afterwards the entity's mapping is
    empty, its id is in no index, and no query returns it, whatever the
    required classes, also after any further operations on the world. *)
Theorem destroy_detaches_then_erases h (self : eref) x :
  data_only on_remove →
  well_formed h →
  ents h !! self = Some x →
  ∃ h', destroy self h = (h', Ok tt) ∧
        h' = with_world (erase (id x)) (detach_each self (components x) h) ∧
        (∀ T k cs, components x = (T, k) :: cs →
           ∃ h1, remove_component self T h = (h1, Ok (Some k)) ∧
                 destroy self h = destroy self h1) ∧
        ents h' !! self = Some (set_components [] x) ∧
        absent_from_indexes (id x) (world h') ∧
        (∀ req incl, self ∉ query req incl (world h')) ∧
        (data_only on_add →
         ∀ ops req incl, self ∉ query req incl (world (run ops h'))).
Proof.
  intros Hd Hwf He.
  pose proof (wf_store _ Hwf _ _ He) as Hmap.
  destruct (mapping_ok_entries _ _ Hmap) as [Hnd Hex].
  destruct (for_each_detach self (components x) Hd h x He eq_refl Hnd Hex)
    as (_ & E2 & E3 & _).
  assert (unregistered self
            (with_world (erase (id x)) (detach_each self (components x) h)))
    as Hunreg.
  { split; simpl.
    - rewrite E2, lookup_insert_eq. by eexists.
    - intros i Hi. rewrite E3 in Hi.
      apply lookup_delete_Some in Hi as [Hne Hi].
      destruct (ic_registry _ (wf_index _ Hwf) _ _ Hi) as (x0 & Hx0 & Hid).
      congruence. }
  eexists. split; [by apply destroy_eq|]. split; [done|].
  split; [|split; [|split; [|split]]].
  - intros T k cs Hcs.
    destruct (Hex T k) as [c Hc]; [rewrite Hcs; by left|].
    destruct (data_only_class _ k k h c Hd Hc) as (c1 & Hc1 & Hcl).
    assert (ents (on_remove k h) !! self = Some x) as He1
      by (by rewrite data_only_ents).
    assert (Dict.get T (components x) = Some k) as Hg.
    { rewrite Hcs. simpl. by rewrite decide_True. }
    exists (unlinked self T x c1 (on_remove k h)). split.
    { apply (remove_component_present_eq _ _ _ x); auto.
      apply dict_mem_get. by rewrite Hg. }
    set (x' := set_components (Dict.del T (components x)) x).
    assert (components x' = cs) as Hcs'.
    { unfold x'; simpl. rewrite Hcs. apply dict_del_head.
      rewrite Hcs in Hnd. unfold Dict.keys in Hnd. rewrite fmap_cons in Hnd.
      by apply NoDup_cons in Hnd as [? _]. }
    assert (mapping_ok (comps (on_remove k h)) x') as Hmap'.
    { apply (mapping_ok_mono (comps h)).
      - intros k' cc Hcc. by apply data_only_class.
      - destruct Hmap as [Hnd' Hty]. split; simpl.
        + by apply dict_keys_del_NoDup.
        + intros T' k' Hg'. rewrite dict_get_del in Hg'.
          case_decide; [done|]. by apply Hty. }
    rewrite (destroy_eq self h x), (destroy_eq self _ x'); auto.
    + rewrite Hcs', Hcs. simpl. by rewrite He1, Hc1.
    + unfold unlinked; simpl. by rewrite lookup_insert_eq.
  - simpl. by rewrite E2, lookup_insert_eq.
  - simpl. apply erase_absent.
  - intros req incl. by apply unregistered_not_in_query.
  - intros Ha ops req incl.
    by apply unregistered_not_in_query, unregistered_run.
Qed.

End world_claims.

(** ** The operations on the small world *)

Lemma base_hooks_data_only : data_only (λ _ h, h).
Proof. intros c h. done. Qed.

Lemma demo_heap_well_formed : well_formed demo_heap.
Proof.
  apply well_formed_run; [apply base_hooks_data_only..|].
  apply well_formed_empty.
Qed.

Example demo_queries :
  query [Transform] false (world demo_heap) = [1%positive] ∧
  query [Transform; Sprite] false (world demo_heap) = [] ∧
  query [] false (world demo_heap) = [2%positive; 1%positive].
Proof. vm_compute. repeat split. Qed.

Lemma entity_init_falsy_id_witness :
  id (Entity_init (Py.VInt 0) "6fa459ea-ee8a-3ca4-894e-db77e160355e") =
    Py.VStr "6fa459ea-ee8a-3ca4-894e-db77e160355e".
Proof.
  apply (proj1 (entity_init_falsy_id (Py.VInt 0)
                  "6fa459ea-ee8a-3ca4-894e-db77e160355e")).
  reflexivity.
Defined.

Lemma add_component_duplicate_rejected_witness :
  ∃ msg, add_component (H := base_hooks) 1 2 demo_heap =
           (demo_heap, Raise (ValueError msg)) ∧
         ents (exec (add_component (H := base_hooks) 1 2) demo_heap) !! 1%positive =
           Some demo_player ∧
         world (exec (add_component (H := base_hooks) 1 2) demo_heap) =
           world demo_heap.
Proof.
  apply (add_component_duplicate_rejected (Hk := base_hooks) demo_heap 1 2
           demo_player (mkComponent Transform None [])).
  - vm_compute. reflexivity.
  - vm_compute. reflexivity.
  - vm_compute. eexists. reflexivity.
Defined.

(** C3, the claim as stated fails: the first [Transform] of the small world
    is attached to the first entity, the second entity holds no
    [Transform], and [add_component] on the second entity returns that
    entity instead of raising; afterwards both mappings hold the
    instance. *)
Lemma add_component_second_entity_accepted :
  get_component 1 Transform demo_heap = (demo_heap, Ok (Some 1%positive)) ∧
  get_entity 1 demo_heap = (demo_heap, Ok (Some 1%positive)) ∧
  has_component 2 Transform demo_heap = (demo_heap, Ok false) ∧
  (add_component (H := base_hooks) 2 1 demo_heap).2 = Ok 2%positive ∧
  (get_component 1 Transform
     (exec (add_component (H := base_hooks) 2 1) demo_heap)).2 =
    Ok (Some 1%positive) ∧
  (get_component 2 Transform
     (exec (add_component (H := base_hooks) 2 1) demo_heap)).2 =
    Ok (Some 1%positive) ∧
  (get_entity 1 (exec (add_component (H := base_hooks) 2 1) demo_heap)).2 =
    Ok (Some 2%positive).
Proof. vm_compute. repeat split. Qed.

Lemma add_component_shares_instance_witness :
  ∃ h', add_component (H := base_hooks) 2 1 demo_heap = (h', Ok 2%positive) ∧
        get_component 1 Transform h' = (h', Ok (Some 1%positive)) ∧
        get_component 2 Transform h' = (h', Ok (Some 1%positive)) ∧
        get_entity 1 h' = (h', Ok (Some 2%positive)).
Proof.
  apply (add_component_shares_instance (Hk := base_hooks) demo_heap 1 2 1
           demo_player demo_other demo_transform).
  - done.
  - vm_compute. reflexivity.
  - vm_compute. reflexivity.
  - vm_compute. reflexivity.
  - vm_compute. reflexivity.
  - vm_compute. reflexivity.
Defined.

Lemma add_component_links_before_hook_witness :
  ∃ h', add_component (H := base_hooks) 2 2 demo_heap = (h', Ok 2%positive) ∧
        h' = linked 2 2 demo_other (mkComponent Transform None []) demo_heap ∧
        get_entity 2 h' = (h', Ok (Some 2%positive)) ∧
        get_component 2 Transform h' = (h', Ok (Some 2%positive)) ∧
        id demo_other ∈ type_ids (world h') Transform.
Proof.
  apply (add_component_links_before_hook (Hk := base_hooks) demo_heap 2 2
           demo_other (mkComponent Transform None [])).
  - vm_compute. reflexivity.
  - vm_compute. reflexivity.
  - vm_compute. reflexivity.
Defined.

Lemma remove_component_spec_witness :
  remove_component (H := base_hooks) 2 Transform demo_heap = (demo_heap, Ok None) ∧
  remove_component (H := base_hooks) 1 Transform demo_heap =
    (unlinked 1 Transform demo_player demo_transform demo_heap,
     Ok (Some 1%positive)).
Proof.
  split.
  - apply (remove_component_spec (Hk := base_hooks) demo_heap 2 Transform
             demo_other base_hooks_data_only).
    vm_compute. reflexivity.
  - pose proof (remove_component_spec (Hk := base_hooks) demo_heap 1 Transform
                  demo_player base_hooks_data_only eq_refl demo_transform eq_refl)
      as (_ & c1 & Hc1 & Heq & _).
    vm_compute in Hc1. injection Hc1 as <-. exact Heq.
Defined.

Lemma remove_component_keeps_back_reference_witness :
  ∃ h', remove_component (H := base_hooks) 1 Transform demo_heap =
          (h', Ok (Some 1%positive)) ∧
        comps h' = comps demo_heap ∧
        get_component 1 Transform h' = (h', Ok None) ∧
        (comps demo_heap !! 1%positive = Some demo_transform →
         comps h' !! 1%positive = Some demo_transform ∧
         (entity demo_transform = Some 1%positive →
          get_entity 1 h' = (h', Ok (Some 1%positive)))).
Proof.
  apply (remove_component_keeps_back_reference (Hk := base_hooks) demo_heap 1
           Transform demo_player 1 demo_transform).
  - apply base_hooks_data_only.
  - vm_compute. reflexivity.
  - vm_compute. reflexivity.
  - vm_compute. reflexivity.
Defined.

Lemma query_single_type_exact_witness :
  NoDup (query [Transform] false (world demo_heap)) ∧
  (1%positive ∈ query [Transform] false (world demo_heap) ↔
     is_live 1 demo_heap = true ∧ is_active 1 demo_heap = (demo_heap, Ok true) ∧
     has_component 1 Transform demo_heap = (demo_heap, Ok true)) ∧
  (1%positive ∈ query [Transform] true (world demo_heap) ↔
     is_live 1 demo_heap = true ∧
     has_component 1 Transform demo_heap = (demo_heap, Ok true)).
Proof.
  apply (query_single_type_exact (Hk := base_hooks) demo_ops Transform 1).
  - apply base_hooks_data_only.
  - apply base_hooks_data_only.
Defined.

Lemma destroy_detaches_then_erases_witness :
  ∃ h', destroy (H := base_hooks) 1 demo_heap = (h', Ok tt) ∧
        h' = with_world (erase (id demo_player))
               (detach_each (H := base_hooks) 1 (components demo_player) demo_heap) ∧
        (∀ T k cs, components demo_player = (T, k) :: cs →
           ∃ h1, remove_component (H := base_hooks) 1 T demo_heap =
                   (h1, Ok (Some k)) ∧
                 destroy (H := base_hooks) 1 demo_heap =
                   destroy (H := base_hooks) 1 h1) ∧
        ents h' !! 1%positive = Some (set_components [] demo_player) ∧
        absent_from_indexes (id demo_player) (world h') ∧
        (∀ req incl, 1%positive ∉ query req incl (world h')) ∧
        (data_only (on_add (Hooks := base_hooks)) →
         ∀ ops req incl,
           1%positive ∉ query req incl (world (run (H := base_hooks) ops h'))).
Proof.
  apply (destroy_detaches_then_erases (Hk := base_hooks) demo_heap 1 demo_player).
  - apply base_hooks_data_only.
  - apply demo_heap_well_formed.
  - vm_compute. reflexivity.
Defined.

(** ** The player controller *)

Section player_facts.
Import PrimFloat.
Import Player.
Context {Env : Type}.
Implicit Types (p : PlayerController Env) (s : PlayerSystem).

(** C7: with [move_speed = 150], [dt = 1.0], "up" and "right" pressed and
    no other movement key nor the sprint key, [process_input] returns
    (106.06601717798212, -106.06601717798212): the direction was normalised
    to (0.7071..., -0.7071...) before scaling.  The two components have the
    same size, each lies between 106.06 and 106.08, the length of the vector
    is 150, and the result is not (150, -150). *)
Theorem process_input_diagonal p (keys_pressed : gmap Z bool) (ku kd kl kr : Z) :
  move_speed p = 150%float →
  Dict.get "up" (move_keys p) = Some ku →
  Dict.get "down" (move_keys p) = Some kd →
  Dict.get "left" (move_keys p) = Some kl →
  Dict.get "right" (move_keys p) = Some kr →
  pressed keys_pressed ku = true →
  pressed keys_pressed kd = false →
  pressed keys_pressed kl = false →
  pressed keys_pressed kr = true →
  pressed keys_pressed (sprint_key p) = false →
  ∃ p' x y,
    process_input 1%float keys_pressed p = (p', Ok (x, y)) ∧
    x = 0x1.a8439a01d1a13p+6%float ∧
    y = (- x)%float ∧
    move_direction p' = (0x1.6a09e667f3bccp-1, - 0x1.6a09e667f3bccp-1)%float ∧
    is_sprinting p' = false ∧
    is_moving p' = true ∧
    (10606 / 100 <? x)%float = true ∧
    (x <? 10608 / 100)%float = true ∧
    PrimFloat.sqrt (x * x + y * y)%float = 150%float ∧
    (x =? 150)%float = false.
Proof.
  intros Hspeed Hu Hd Hl Hr Pu Pd Pl Pr Ps.
  unfold process_input, check_move_key, move_key, bind, modify, gets, ret.
  simpl. rewrite Hu, Pu. simpl. rewrite Hd, Pd. simpl. rewrite Hl, Pl. simpl.
  rewrite Hr, Pr. simpl. rewrite Ps. simpl. rewrite Hspeed.
  do 3 eexists. split; [reflexivity|].
  vm_compute. repeat split.
Qed.

(** *** The input snapshot of the player system *)

Lemma pressed_keys_fold (key_state : list bool) (l : list Z) (d : gmap Z bool) (k : Z) :
  foldl (λ d key,
           match key_state !! Z.to_nat key with
           | Some true => <[key := true]> d
           | _ => d
           end) d l !! k =
  if decide (k ∈ l ∧ key_state !! Z.to_nat k = Some true) then Some true
  else d !! k.
Proof.
  revert d. induction l as [|key l IH]; intros d; simpl.
  - done.
  - rewrite IH. destruct (decide (k ∈ l ∧ key_state !! Z.to_nat k = Some true))
      as [[Hin Hk]|Hno].
    + rewrite decide_True; [done|]. split; [by right|done].
    + destruct (decide (k = key)) as [->|Hne].
      * destruct (key_state !! Z.to_nat key) as [[]|] eqn:Hkey.
        -- rewrite lookup_insert_eq. rewrite decide_True; [done|].
           split; [by left|done].
        -- rewrite decide_False; [done|]. by intros [_ ?].
        -- rewrite decide_False; [done|]. by intros [_ ?].
      * assert (match key_state !! Z.to_nat key with
                | Some true => <[key:=true]> d
                | _ => d
                end !! k = d !! k) as ->.
        { destruct (key_state !! Z.to_nat key) as [[]|]; [|done..].
          by rewrite lookup_insert_ne. }
        rewrite decide_False; [done|]. intros [Hin Hk]. apply Hno.
        split; [|done]. by apply elem_of_cons in Hin as [?|?].
Qed.

(** A key is in the pressed dictionary exactly when the key state holds
    True at its index. *)
Lemma pressed_keys_lookup (key_state : list bool) (k : Z) :
  pressed_keys key_state !! k =
  if decide ((0 ≤ k)%Z ∧ key_state !! Z.to_nat k = Some true) then Some true
  else None.
Proof.
  unfold pressed_keys. rewrite pressed_keys_fold, lookup_empty.
  destruct (decide ((0 ≤ k)%Z ∧ key_state !! Z.to_nat k = Some true))
    as [[Hk Hs]|Hno].
  - rewrite decide_True; [done|]. split; [|done]. apply elem_of_seqZ.
    apply lookup_lt_Some in Hs. lia.
  - rewrite decide_False; [done|]. intros [Hin Hs]. apply Hno.
    apply elem_of_seqZ in Hin. split; [lia|done].
Qed.

Lemma just_pressed_lookup (now previous : gmap Z bool) (k : Z) :
  just_pressed now previous !! k =
  match now !! k, previous !! k with
  | Some _, None => Some true
  | _, _ => None
  end.
Proof.
  unfold just_pressed. rewrite lookup_fmap, map_lookup_filter.
  destruct (now !! k) as [b|]; simpl; [|done].
  case_guard as Hg; simpl in Hg; rewrite ?Hg; [done|].
  by destruct (previous !! k).
Qed.

(** C8: the key is up in one frame and down in the next two.  In the first
    of these two frames the callback runs, in the second it does not: over
    the two frames it ran once. *)
Theorem interaction_fires_once_when_held p (callback : Env → Env) s
    (frame0 frame1 frame2 : list bool) (env : Env) :
  on_interact p = Some callback →
  (0 ≤ interact_key p)%Z →
  frame0 !! Z.to_nat (interact_key p) ≠ Some true →
  frame1 !! Z.to_nat (interact_key p) = Some true →
  frame2 !! Z.to_nat (interact_key p) = Some true →
  let s0 := _update_input_state frame0 s in
  let s1 := _update_input_state frame1 s0 in
  let s2 := _update_input_state frame2 s1 in
  process_interaction p (keys_pressed s1) (keys_just_pressed s1) env =
    (callback env, true) ∧
  process_interaction p (keys_pressed s2) (keys_just_pressed s2) (callback env) =
    (callback env, false).
Proof.
  intros Hcb Hk H0 H1 H2 s0 s1 s2.
  unfold process_interaction, pressed. rewrite Hcb.
  unfold s2, s1, s0, _update_input_state; simpl.
  rewrite !just_pressed_lookup, !pressed_keys_lookup.
  rewrite (decide_True (P := _ ∧ frame1 !! _ = _)) by done.
  rewrite (decide_True (P := _ ∧ frame2 !! _ = _)) by done.
  rewrite decide_False by (by intros [_ ?]).
  done.
Qed.

End player_facts.

Section player_witnesses.
Import PrimFloat.
Import Player.

(** "right" alone, [move_speed = 100], [dt = 0.1]: no normalisation, the
    displacement is (10.0, 0.0). *)
Example process_input_right_only :
  (process_input (1 / 10)%float {[ K_d := true ]}
     (PlayerController_init (Env := nat) 100%float)).2 = Ok (10%float, 0%float).
Proof. vm_compute. reflexivity. Qed.

(** Opposite keys cancel: nothing moves and the direction is not
    normalised. *)
Example process_input_up_and_down :
  (process_input 1%float {[ K_w := true; K_s := true ]}
     (PlayerController_init (Env := nat) 150%float)).2 = Ok (0%float, 0%float).
Proof. vm_compute. reflexivity. Qed.

Lemma process_input_diagonal_witness :
  ∃ p' x y,
    process_input 1%float demo_keys demo_controller = (p', Ok (x, y)) ∧
    x = 0x1.a8439a01d1a13p+6%float ∧
    y = (- x)%float ∧
    move_direction p' = (0x1.6a09e667f3bccp-1, - 0x1.6a09e667f3bccp-1)%float ∧
    is_sprinting p' = false ∧
    is_moving p' = true ∧
    (10606 / 100 <? x)%float = true ∧
    (x <? 10608 / 100)%float = true ∧
    PrimFloat.sqrt (x * x + y * y)%float = 150%float ∧
    (x =? 150)%float = false.
Proof.
  apply (process_input_diagonal demo_controller demo_keys K_w K_s K_a K_d);
    vm_compute; reflexivity.
Defined.

Lemma interaction_fires_once_when_held_witness :
  let s0 := _update_input_state frame_up PlayerSystem_init in
  let s1 := _update_input_state frame_down s0 in
  let s2 := _update_input_state frame_down s1 in
  process_interaction demo_controller (keys_pressed s1) (keys_just_pressed s1) 0 =
    (1, true) ∧
  process_interaction demo_controller (keys_pressed s2) (keys_just_pressed s2) 1 =
    (1, false).
Proof.
  apply (interaction_fires_once_when_held demo_controller S PlayerSystem_init
           frame_up frame_down frame_down 0).
  - reflexivity.
  - vm_compute. discriminate.
  - vm_compute. discriminate.
  - vm_compute. reflexivity.
  - vm_compute. reflexivity.
Defined.

End player_witnesses.

(** * Further properties of the entity operations *)

Section entity_extras.
Context `{Hk : Hooks}.
Implicit Types (h : Heap) (x : Entity) (w : World) (T : ctype).

(** X1: whatever operations ran on a world, every entity's mapping holds
    each component class at most once, and the component stored under a
    class is an object of that class. *)
Theorem mapping_keyed_by_class_after_run (ops : list op) (r : eref) x T (k : cref) :
  data_only on_add →
  data_only on_remove →
  ents (run ops empty_heap) !! r = Some x →
  NoDup (Dict.keys (components x)) ∧
  (Dict.get T (components x) = Some k →
   ∃ cc, comps (run ops empty_heap) !! k = Some cc ∧ cclass cc = T).
Proof.
  intros Ha Hd Hx.
  assert (well_formed (run ops empty_heap)) as [_ Hst]
    by (by apply well_formed_run, well_formed_empty).
  destruct (Hst r x Hx) as [Hnd Hty]. split; [done|]. apply Hty.
Qed.

Lemma has_id_read_entity (r : eref) i e h :
  has_id r i h → has_id r i (exec (read_entity e) h).
Proof. unfold exec, read_entity. by destruct (ents h !! e). Qed.

Lemma has_id_read_component (r : eref) i c h :
  has_id r i h → has_id r i (exec (read_component c) h).
Proof. unfold exec, read_component. by destruct (comps h !! c). Qed.

Lemma has_id_update_entity (r : eref) i e f h :
  (∀ x, id (f x) = id x) →
  has_id r i h → has_id r i (exec (update_entity e f) h).
Proof.
  intros Hf (x & Hx & Hi). unfold has_id; simpl.
  destruct (decide (e = r)) as [->|].
  - rewrite lookup_alter_eq, Hx. simpl. eexists. split; [done|]. by rewrite Hf.
  - rewrite lookup_alter_ne by done. eauto.
Qed.

Lemma has_id_call_hook (r : eref) i f (c : cref) h :
  data_only f → has_id r i h → has_id r i (exec (call_hook f c) h).
Proof.
  intros Hf Hq. unfold exec, call_hook, has_id; simpl.
  by rewrite (data_only_ents _ _ _ Hf).
Qed.

Ltac has_id_step :=
  first
    [ apply exec_bind; [intros ? ?|intros ? ? ?|assumption]
    | by apply has_id_read_entity
    | by apply has_id_read_component
    | by (apply has_id_update_entity; [intros ?; reflexivity|])
    | by apply has_id_call_hook
    | done ].

Lemma has_id_add_component (r : eref) i e c h :
  data_only on_add → has_id r i h → has_id r i (exec (add_component e c) h).
Proof.
  intros Ha. revert h. unfold add_component, get_component_type, _set_entity,
    _entity_component_added.
  intros h Hq. repeat has_id_step. case_match; repeat has_id_step.
Qed.

Lemma has_id_remove_component (r : eref) i e T h :
  data_only on_remove →
  has_id r i h → has_id r i (exec (remove_component e T) h).
Proof.
  intros Hd. revert h. unfold remove_component, _entity_component_removed.
  intros h Hq. repeat has_id_step.
  case_match; repeat has_id_step. case_match; repeat has_id_step.
Qed.

Lemma has_id_exec_op (r : eref) i o h :
  data_only on_add → data_only on_remove →
  has_id r i h → has_id r i (exec_op o h).
Proof.
  intros Ha Hd Hq. destruct o as [j u|T a|e c|e T|e t|e t|e a|e]; simpl;
    try (unfold on_live; destruct (is_live e h); [|done]).
  - destruct Hq as (x & Hx & Hi). unfold exec, create_entity.
    destruct (registry (world h) !! id (Entity_init j u)); simpl; [by exists x|].
    exists x. split; [|done]. unfold has_id; simpl.
    rewrite lookup_insert_ne; [done|]. intros Heq.
    apply (is_fresh (dom (ents h))). rewrite Heq. apply elem_of_dom. by eexists.
  - done.
  - by apply has_id_add_component.
  - by apply has_id_remove_component.
  - revert h Hq. unfold add_tag, _entity_tag_added. intros h Hq.
    repeat has_id_step.
  - revert h Hq. unfold remove_tag, _entity_tag_removed. intros h Hq.
    repeat has_id_step. case_match; repeat has_id_step.
  - revert h Hq. unfold set_active, _entity_active_changed. intros h Hq.
    repeat has_id_step. case_match; repeat has_id_step.
  - revert h Hq. unfold destroy, _remove_entity. intros h Hq.
    repeat has_id_step.
    apply exec_for_each; [|done]. intros T h' Hq'.
    apply exec_bind; [|done|done]. intros h'' Hq''.
    by apply has_id_remove_component.
Qed.

(** X2: no operation changes the id of an entity object or drops the
    object from the store: the id given at construction stays, also after
    [destroy]. *)
Theorem entity_id_never_changes (ops : list op) h (r : eref) x :
  data_only on_add →
  data_only on_remove →
  ents h !! r = Some x →
  ∃ x', ents (run ops h) !! r = Some x' ∧ id x' = id x.
Proof.
  intros Ha Hd Hx. change (has_id r (id x) (run ops h)).
  assert (has_id r (id x) h) as Hq by (by exists x).
  clear Hx. revert h Hq. unfold run.
  induction ops as [|o ops IH]; intros h Hq; simpl; [done|].
  apply IH. by apply has_id_exec_op.
Qed.

(** X3: after a component of class [T] was detached, another instance of
    class [T] can be attached: the second [add_component] raises nothing and
    [get_component] returns the new instance. *)
Theorem detach_then_attach h (self : eref) T e (k k' : cref) (c c' : Component) :
  data_only on_add →
  data_only on_remove →
  ents h !! self = Some e →
  Dict.get T (components e) = Some k →
  comps h !! k = Some c →
  comps h !! k' = Some c' →
  cclass c' = T →
  ∃ h1 h2, remove_component self T h = (h1, Ok (Some k)) ∧
           add_component self k' h1 = (h2, Ok self) ∧
           get_component self T h2 = (h2, Ok (Some k')).
Proof.
  intros Ha Hd He Hg Hc Hc' Hcl.
  destruct (data_only_class _ k k h c Hd Hc) as (c1 & Hc1 & _).
  destruct (data_only_class _ k k' h c' Hd Hc') as (c1' & Hc1' & Hcl').
  set (h1 := unlinked self T e c1 (on_remove k h)).
  set (e1 := set_components (Dict.del T (components e)) e).
  assert (ents h1 !! self = Some e1) as He1
    by (unfold h1, unlinked; simpl; by rewrite lookup_insert_eq).
  assert (Dict.mem (cclass c1') (components e1) = false) as Hm.
  { rewrite Hcl', Hcl. unfold e1; simpl. rewrite dict_mem_del.
    by rewrite decide_True. }
  exists h1, (on_add k' (linked self k' e1 c1' h1)). split; [|split].
  - apply (remove_component_present_eq _ _ _ e); auto.
    + by rewrite data_only_ents.
    + apply dict_mem_get. by rewrite Hg.
  - by apply add_component_fresh_eq.
  - unfold get_component, read_entity, bind, ret.
    rewrite (data_only_ents _ _ _ Ha). unfold linked; simpl.
    rewrite lookup_insert_eq; simpl. rewrite dict_get_set.
    rewrite decide_True by congruence. done.
Qed.

(** X4: a successful [add_component] touches one entry of one entity: every
    other entity object is as before, and the entity itself keeps its id,
    tags, active flag and all other entries; the new class is the last key
    of the mapping. *)
Theorem add_component_frame h (self : eref) (component : cref) e c :
  data_only on_add →
  ents h !! self = Some e →
  comps h !! component = Some c →
  Dict.mem (cclass c) (components e) = false →
  ∃ h' e', add_component self component h = (h', Ok self) ∧
           ents h' !! self = Some e' ∧
           id e' = id e ∧ tags e' = tags e ∧ active e' = active e ∧
           Dict.keys (components e') = Dict.keys (components e) ++ [cclass c] ∧
           (∀ T, T ≠ cclass c →
                 Dict.get T (components e') = Dict.get T (components e)) ∧
           (∀ r : eref, r ≠ self → ents h' !! r = ents h !! r).
Proof.
  intros Ha He Hc Hm.
  eexists _, _. split; [by apply add_component_fresh_eq|].
  rewrite (data_only_ents _ _ _ Ha). unfold linked; simpl.
  rewrite lookup_insert_eq. split; [done|]. simpl.
  split; [done|]. split; [done|]. split; [done|]. split; [|split].
  - apply dict_keys_set_absent. by apply dict_mem_false.
  - intros T HT. rewrite dict_get_set. by rewrite decide_False.
  - intros r Hr. by rewrite lookup_insert_ne.
Qed.

(** X5: detaching the same class a second time finds nothing: the second
    [remove_component] returns None and leaves the store as the first call
    left it. *)
Theorem remove_component_twice h (self : eref) T e (k : cref) (c : Component) :
  data_only on_remove →
  ents h !! self = Some e →
  Dict.get T (components e) = Some k →
  comps h !! k = Some c →
  ∃ h1, remove_component self T h = (h1, Ok (Some k)) ∧
        remove_component self T h1 = (h1, Ok None).
Proof.
  intros Hd He Hg Hc.
  destruct (data_only_class _ k k h c Hd Hc) as (c1 & Hc1 & _).
  exists (unlinked self T e c1 (on_remove k h)). split.
  - apply (remove_component_present_eq _ _ _ e); auto.
    + by rewrite data_only_ents.
    + apply dict_mem_get. by rewrite Hg.
  - apply (remove_component_absent_eq _ _ _
             (set_components (Dict.del T (components e)) e)).
    + unfold unlinked; simpl. by rewrite lookup_insert_eq.
    + simpl. rewrite dict_get_del. by rewrite decide_True.
Qed.

(** X6: [remove_tag] returns whether the tag was there; afterwards
    [has_tag] is False for it and unchanged for every other tag; when the
    tag was not there the store is untouched. *)
Theorem remove_tag_spec h (self : eref) (t : tag) e :
  ents h !! self = Some e →
  ∃ h1, remove_tag self t h = (h1, Ok (bool_decide (t ∈ tags e))) ∧
        has_tag self t h1 = (h1, Ok false) ∧
        (∀ t' : tag, t' ≠ t → (has_tag self t' h1).2 = (has_tag self t' h).2) ∧
        (t ∉ tags e → h1 = h).
Proof.
  intros He. rewrite (remove_tag_eq _ _ _ _ He).
  unfold has_tag, read_entity, bind, ret. rewrite He.
  case_bool_decide as Ht.
  - eexists. split; [done|]. simpl. rewrite lookup_insert_eq. simpl.
    split; [|split].
    + rewrite bool_decide_eq_false_2; [done|]. set_solver.
    + intros t' Hne. do 2 f_equal. apply bool_decide_ext. set_solver.
    + done.
  - exists h. split; [done|]. rewrite He. split; [|split]; [|done..].
    by rewrite bool_decide_eq_false_2.
Qed.

(** X7: adding a tag the entity does not have and removing it again gives
    back the entity objects and the component objects of before; in between
    [has_tag] is True and [remove_tag] reports True. *)
Theorem add_tag_remove_tag h (self : eref) (t : tag) e :
  ents h !! self = Some e →
  t ∉ tags e →
  ∃ h1 h2, add_tag self t h = (h1, Ok self) ∧
           has_tag self t h1 = (h1, Ok true) ∧
           remove_tag self t h1 = (h2, Ok true) ∧
           ents h2 = ents h ∧ comps h2 = comps h.
Proof.
  intros He Ht. eexists _, _. split; [by apply add_tag_eq|].
  set (e1 := set_tags ({[t]} ∪ tags e) e).
  assert (t ∈ tags e1) as Ht1 by (unfold e1; simpl; set_solver).
  split; [|split].
  - unfold has_tag, read_entity, bind, ret; simpl. rewrite lookup_insert_eq.
    by rewrite bool_decide_eq_true_2.
  - rewrite (remove_tag_eq _ _ _ e1) by (simpl; by rewrite lookup_insert_eq).
    rewrite bool_decide_eq_true_2 by done. reflexivity.
  - simpl. split; [|done]. rewrite insert_insert_eq.
    replace (set_tags (tags e1 ∖ {[t]}) e1) with e; [by apply insert_id|].
    unfold e1, set_tags; simpl. destruct e as [i cs tg a]; simpl in *.
    f_equal. set_solver.
Qed.

(** X8: [set_active] makes [is_active] return the requested value, changes
    no other entity object, does nothing at all when the flag already had
    that value, and a second call with the same value does nothing. *)
Theorem set_active_spec h (self : eref) (a : bool) e :
  ents h !! self = Some e →
  ∃ h1, set_active self a h = (h1, Ok self) ∧
        is_active self h1 = (h1, Ok a) ∧
        set_active self a h1 = (h1, Ok self) ∧
        (active e = a → h1 = h) ∧
        (∀ r : eref, r ≠ self → ents h1 !! r = ents h !! r).
Proof.
  intros He. rewrite (set_active_eq _ _ _ _ He).
  destruct (negb (eqb (active e) a)) eqn:Hne.
  - eexists. split; [done|].
    assert (ents
              (mkHeap (<[self:=set_active_flag a e]> (ents h)) (comps h)
                 (set_active_view
                    (if a then {[id e]} ∪ active_view (world h)
                     else active_view (world h) ∖ {[id e]}) (world h)))
            !! self = Some (set_active_flag a e)) as He1
      by (simpl; by rewrite lookup_insert_eq).
    split; [|split; [|split]].
    + unfold is_active, read_entity, bind, ret. by rewrite He1.
    + rewrite (set_active_eq _ _ _ _ He1). simpl.
      by destruct a.
    + intros Heq. rewrite Heq in Hne. by destruct a.
    + intros r Hr. simpl. by rewrite lookup_insert_ne.
  - exists h. split; [done|]. rewrite (set_active_eq _ _ _ _ He), Hne.
    split; [|done]. unfold is_active, read_entity, bind, ret. rewrite He.
    do 2 f_equal. destruct (active e), a; done.
Qed.

(** X9: [has_components] is True exactly when [has_component] is True for
    every listed class (so it is True for the empty list), and
    [has_component] is True exactly when [get_component] finds an
    instance. *)
Theorem has_components_spec h (self : eref) (Ts : list ctype) T e :
  ents h !! self = Some e →
  (has_components self Ts h = (h, Ok true) ↔
   ∀ T', T' ∈ Ts → has_component self T' h = (h, Ok true)) ∧
  (has_component self T h = (h, Ok true) ↔
   ∃ k : cref, get_component self T h = (h, Ok (Some k))).
Proof.
  intros He.
  unfold has_components, has_component, get_component, read_entity, bind, ret.
  rewrite He. split.
  - split.
    + intros Hall T' HT. do 2 f_equal.
      assert (forallb (λ ct, Dict.mem ct (components e)) Ts = true) as Hf
        by congruence.
      rewrite forallb_forall in Hf. by apply Hf, list_elem_of_In.
    + intros Hall. do 2 f_equal. apply forallb_forall. intros T' HT.
      specialize (Hall T' (proj2 (list_elem_of_In _ _) HT)). congruence.
  - split.
    + intros Hm. assert (Dict.mem T (components e) = true) as Hm' by congruence.
      apply dict_mem_get in Hm' as [k Hgk]. exists k. by rewrite Hgk.
    + intros [k Hgk]. do 2 f_equal. apply dict_mem_get. exists k. congruence.
Qed.

End entity_extras.

Lemma mapping_keyed_by_class_after_run_witness :
  NoDup (Dict.keys (components demo_player)) ∧
  (Dict.get Transform (components demo_player) = Some 1%positive →
   ∃ cc, comps (run (H := base_hooks) demo_ops empty_heap) !! 1%positive = Some cc ∧
         cclass cc = Transform).
Proof.
  apply (mapping_keyed_by_class_after_run (Hk := base_hooks) demo_ops 1
           demo_player Transform 1).
  - apply base_hooks_data_only.
  - apply base_hooks_data_only.
  - vm_compute. reflexivity.
Defined.

Lemma entity_id_never_changes_witness :
  ∃ x', ents (run (H := base_hooks) [OpDestroy 1; OpAddTag 2 "npc"] demo_heap)
          !! 1%positive = Some x' ∧
        id x' = id demo_player.
Proof.
  apply (entity_id_never_changes (Hk := base_hooks)
           [OpDestroy 1; OpAddTag 2 "npc"] demo_heap 1 demo_player).
  - apply base_hooks_data_only.
  - apply base_hooks_data_only.
  - vm_compute. reflexivity.
Defined.

Lemma detach_then_attach_witness :
  ∃ h1 h2, remove_component (H := base_hooks) 1 Transform demo_heap =
             (h1, Ok (Some 1%positive)) ∧
           add_component (H := base_hooks) 1 2 h1 = (h2, Ok 1%positive) ∧
           get_component 1 Transform h2 = (h2, Ok (Some 2%positive)).
Proof.
  apply (detach_then_attach (Hk := base_hooks) demo_heap 1 Transform demo_player
           1 2 demo_transform (mkComponent Transform None [])).
  - apply base_hooks_data_only.
  - apply base_hooks_data_only.
  - vm_compute. reflexivity.
  - vm_compute. reflexivity.
  - vm_compute. reflexivity.
  - vm_compute. reflexivity.
  - reflexivity.
Defined.

Lemma add_component_frame_witness :
  ∃ h' e', add_component (H := base_hooks) 2 2 demo_heap = (h', Ok 2%positive) ∧
           ents h' !! 2%positive = Some e' ∧
           id e' = id demo_other ∧ tags e' = tags demo_other ∧
           active e' = active demo_other ∧
           Dict.keys (components e') =
             Dict.keys (components demo_other) ++ [Transform] ∧
           (∀ T, T ≠ Transform →
                 Dict.get T (components e') = Dict.get T (components demo_other)) ∧
           (∀ r : positive, r ≠ 2%positive → ents h' !! r = ents demo_heap !! r).
Proof.
  apply (add_component_frame (Hk := base_hooks) demo_heap 2 2 demo_other
           (mkComponent Transform None [])).
  - apply base_hooks_data_only.
  - vm_compute. reflexivity.
  - vm_compute. reflexivity.
  - vm_compute. reflexivity.
Defined.

Lemma remove_component_twice_witness :
  ∃ h1, remove_component (H := base_hooks) 1 Transform demo_heap =
          (h1, Ok (Some 1%positive)) ∧
        remove_component (H := base_hooks) 1 Transform h1 = (h1, Ok None).
Proof.
  apply (remove_component_twice (Hk := base_hooks) demo_heap 1 Transform
           demo_player 1 demo_transform).
  - apply base_hooks_data_only.
  - vm_compute. reflexivity.
  - vm_compute. reflexivity.
  - vm_compute. reflexivity.
Defined.

Lemma remove_tag_spec_witness :
  ∃ h1, remove_tag 1 "hero" demo_heap =
          (h1, Ok (bool_decide ("hero" ∈ tags demo_player))) ∧
        has_tag 1 "hero" h1 = (h1, Ok false) ∧
        (∀ t' : string, t' ≠ "hero" →
           (has_tag 1 t' h1).2 = (has_tag 1 t' demo_heap).2) ∧
        ("hero" ∉ tags demo_player → h1 = demo_heap).
Proof.
  apply (remove_tag_spec demo_heap 1 "hero" demo_player).
  vm_compute. reflexivity.
Defined.

Lemma add_tag_remove_tag_witness :
  ∃ h1 h2, add_tag 2 "npc" demo_heap = (h1, Ok 2%positive) ∧
           has_tag 2 "npc" h1 = (h1, Ok true) ∧
           remove_tag 2 "npc" h1 = (h2, Ok true) ∧
           ents h2 = ents demo_heap ∧ comps h2 = comps demo_heap.
Proof.
  apply (add_tag_remove_tag demo_heap 2 "npc" demo_other).
  - vm_compute. reflexivity.
  - apply not_elem_of_empty.
Defined.

Lemma set_active_spec_witness :
  ∃ h1, set_active 1 false demo_heap = (h1, Ok 1%positive) ∧
        is_active 1 h1 = (h1, Ok false) ∧
        set_active 1 false h1 = (h1, Ok 1%positive) ∧
        (active demo_player = false → h1 = demo_heap) ∧
        (∀ r : positive, r ≠ 1%positive → ents h1 !! r = ents demo_heap !! r).
Proof.
  apply (set_active_spec demo_heap 1 false demo_player).
  vm_compute. reflexivity.
Defined.

Lemma has_components_spec_witness :
  (has_components 1 [Transform] demo_heap = (demo_heap, Ok true) ↔
   ∀ T', T' ∈ [Transform] → has_component 1 T' demo_heap = (demo_heap, Ok true)) ∧
  (has_component 1 Transform demo_heap = (demo_heap, Ok true) ↔
   ∃ k : positive, get_component 1 Transform demo_heap = (demo_heap, Ok (Some k))).
Proof.
  apply (has_components_spec demo_heap 1 [Transform] Transform demo_player).
  vm_compute. reflexivity.
Defined.

(** * Further properties of the player controller and the player system *)

Section player_extras.
Import PrimFloat.
Import Player.
Import PlayerForms.
Context {Env : Type}.
Implicit Types (p : PlayerController Env) (s : PlayerSystem).

Lemma bind_ok {S A B} (m : St S A) (k : A → St S B) (s s' : S) (a : A) :
  m s = (s', Ok a) → bind m k s = k a s'.
Proof. intros Hm. unfold bind. by rewrite Hm. Qed.

Lemma check_move_key_eq p (keys_pressed : gmap Z bool) name step facing (k : Z) :
  Dict.get name (move_keys p) = Some k →
  check_move_key keys_pressed name step facing p =
    (if pressed keys_pressed k
     then set_facing facing (set_direction (step (move_direction p)) p)
     else p, Ok tt).
Proof.
  intros Hk. unfold check_move_key, move_key, bind. rewrite Hk.
  by destruct (pressed keys_pressed k).
Qed.

Lemma move_keys_if (b : bool) p q :
  move_keys q = move_keys p → move_keys (if b then q else p) = move_keys p.
Proof. by destruct b. Qed.

(** The four key checks, followed by any continuation [k]. *)
Lemma keys_phase p (kp : gmap Z bool) (ku kd kl kr : Z) {A}
    (k : St (PlayerController Env) A) :
  Dict.get "up" (move_keys p) = Some ku →
  Dict.get "down" (move_keys p) = Some kd →
  Dict.get "left" (move_keys p) = Some kl →
  Dict.get "right" (move_keys p) = Some kr →
  (modify (set_direction (0%float, 0%float)) ;;;
   check_move_key kp "up"
     (λ d, (d.1, PrimFloat.sub d.2 1%float)) (0%float, (-1)%float) ;;;
   check_move_key kp "down"
     (λ d, (d.1, PrimFloat.add d.2 1%float)) (0%float, 1%float) ;;;
   check_move_key kp "left"
     (λ d, (PrimFloat.sub d.1 1%float, d.2)) ((-1)%float, 0%float) ;;;
   check_move_key kp "right"
     (λ d, (PrimFloat.add d.1 1%float, d.2)) (1%float, 0%float) ;;;
   k) p =
  k (set_facing
       (facing_of (pressed kp ku) (pressed kp kd) (pressed kp kl) (pressed kp kr)
          (facing_direction p))
       (set_direction
          (raw_direction (pressed kp ku) (pressed kp kd) (pressed kp kl)
             (pressed kp kr)) p)).
Proof.
  intros Hu Hd Hl Hr.
  rewrite (bind_ok _ _ p _ tt eq_refl).
  erewrite bind_ok by (apply check_move_key_eq; exact Hu).
  erewrite bind_ok
    by (apply check_move_key_eq; rewrite move_keys_if by done; exact Hd).
  erewrite bind_ok
    by (apply check_move_key_eq; rewrite !move_keys_if by done; exact Hl).
  erewrite bind_ok
    by (apply check_move_key_eq; rewrite !move_keys_if by done; exact Hr).
  f_equal.
  destruct (pressed kp ku), (pressed kp kd), (pressed kp kl), (pressed kp kr);
    reflexivity.
Qed.

Lemma finish_input_eq (dt : float) (kp : gmap Z bool) p :
  let dir := normalised (move_direction p) in
  let speed := if pressed kp (sprint_key p)
               then (move_speed p * sprint_multiplier p)%float
               else move_speed p in
  let move_x := (dir.1 * speed * dt)%float in
  let move_y := (dir.2 * speed * dt)%float in
  finish_input dt kp p =
    (set_moving (nonzero move_x || nonzero move_y)
       (set_sprinting (pressed kp (sprint_key p)) (set_direction dir p)),
     Ok (move_x, move_y)).
Proof.
  intros. unfold finish_input, bind, modify, gets, ret.
  subst dir move_x move_y speed. unfold normalised.
  destruct (nonzero (move_direction p).1 && nonzero (move_direction p).2); simpl.
  - destruct (pressed kp (sprint_key p)); reflexivity.
  - destruct (pressed kp (sprint_key p)); destruct p; reflexivity.
Qed.

Lemma normalised_raw_direction (u d l r : bool) :
  normalised (raw_direction u d l r) = direction_of u d l r.
Proof. destruct u, d, l, r; vm_compute; reflexivity. Qed.

(** X10: with the four movement keys configured, [process_input] never
    raises and its result depends on the pressed keys only through a fixed
    table: opposite keys cancel, a single axis gives a component of -1 or 1,
    two axes give components of size 0.7071067811865475.  The displacement
    is direction * speed * dt, the speed multiplied by [sprint_multiplier]
    exactly when the sprint key is pressed. *)
Theorem process_input_closed_form p (dt : float) (keys_pressed : gmap Z bool)
    (ku kd kl kr : Z) :
  Dict.get "up" (move_keys p) = Some ku →
  Dict.get "down" (move_keys p) = Some kd →
  Dict.get "left" (move_keys p) = Some kl →
  Dict.get "right" (move_keys p) = Some kr →
  let dir := direction_of (pressed keys_pressed ku) (pressed keys_pressed kd)
               (pressed keys_pressed kl) (pressed keys_pressed kr) in
  let speed := if pressed keys_pressed (sprint_key p)
               then (move_speed p * sprint_multiplier p)%float
               else move_speed p in
  let move_x := (dir.1 * speed * dt)%float in
  let move_y := (dir.2 * speed * dt)%float in
  ∃ p', process_input dt keys_pressed p = (p', Ok (move_x, move_y)) ∧
        move_direction p' = dir ∧
        is_sprinting p' = pressed keys_pressed (sprint_key p) ∧
        is_moving p' = nonzero move_x || nonzero move_y.
Proof.
  intros Hu Hd Hl Hr dir speed move_x move_y.
  change (process_input dt keys_pressed p) with
    ((modify (set_direction (0%float, 0%float)) ;;;
      check_move_key keys_pressed "up"
        (λ d, (d.1, PrimFloat.sub d.2 1%float)) (0%float, (-1)%float) ;;;
      check_move_key keys_pressed "down"
        (λ d, (d.1, PrimFloat.add d.2 1%float)) (0%float, 1%float) ;;;
      check_move_key keys_pressed "left"
        (λ d, (PrimFloat.sub d.1 1%float, d.2)) ((-1)%float, 0%float) ;;;
      check_move_key keys_pressed "right"
        (λ d, (PrimFloat.add d.1 1%float, d.2)) (1%float, 0%float) ;;;
      finish_input dt keys_pressed) p).
  rewrite (keys_phase p keys_pressed ku kd kl kr _ Hu Hd Hl Hr).
  rewrite finish_input_eq.
  cbn [move_direction sprint_key move_speed sprint_multiplier set_facing
       set_direction].
  rewrite normalised_raw_direction.
  eexists. split; [reflexivity|]. by repeat split.
Qed.

(** X11: after a successful [process_input] the facing direction is the one
    of the last pressed key in the order up, down, left, right (so "right"
    wins over everything), and it is the old facing direction when no
    movement key is pressed. *)
Theorem process_input_facing p (dt : float) (keys_pressed : gmap Z bool)
    (ku kd kl kr : Z) :
  Dict.get "up" (move_keys p) = Some ku →
  Dict.get "down" (move_keys p) = Some kd →
  Dict.get "left" (move_keys p) = Some kl →
  Dict.get "right" (move_keys p) = Some kr →
  facing_direction (exec (process_input dt keys_pressed) p) =
    facing_of (pressed keys_pressed ku) (pressed keys_pressed kd)
      (pressed keys_pressed kl) (pressed keys_pressed kr) (facing_direction p).
Proof.
  intros Hu Hd Hl Hr.
  unfold exec, process_input, check_move_key, move_key, bind, modify, gets, ret.
  simpl. rewrite Hu.
  destruct (pressed keys_pressed ku); simpl; rewrite Hd;
    destruct (pressed keys_pressed kd); simpl; rewrite Hl;
    destruct (pressed keys_pressed kl); simpl; rewrite Hr;
    destruct (pressed keys_pressed kr); simpl; reflexivity.
Qed.

(** X12: when one of the four entries "up", "down", "left", "right" is
    missing from [move_keys], [process_input] raises KeyError; the
    [is_moving] and [is_sprinting] flags then still hold the values of the
    previous call. *)
Theorem process_input_missing_key p (dt : float) (keys_pressed : gmap Z bool) :
  Dict.get "up" (move_keys p) = None ∨ Dict.get "down" (move_keys p) = None ∨
  Dict.get "left" (move_keys p) = None ∨ Dict.get "right" (move_keys p) = None →
  ∃ p', process_input dt keys_pressed p = (p', Raise KeyError) ∧
        is_moving p' = is_moving p ∧ is_sprinting p' = is_sprinting p.
Proof.
  intros Hmiss.
  unfold process_input, check_move_key, move_key, bind, modify, gets, ret.
  simpl.
  destruct (Dict.get "up" (move_keys p)) as [ku|] eqn:Hu; simpl;
    [|by eexists].
  destruct (pressed keys_pressed ku); simpl;
    (destruct (Dict.get "down" (move_keys p)) as [kd|] eqn:Hd; simpl;
       [|by eexists]);
    (destruct (pressed keys_pressed kd); simpl;
       (destruct (Dict.get "left" (move_keys p)) as [kl|] eqn:Hl; simpl;
          [|by eexists]);
       (destruct (pressed keys_pressed kl); simpl;
          (destruct (Dict.get "right" (move_keys p)) as [kr|] eqn:Hr; simpl;
             [|by eexists]);
          exfalso; naive_solver)).
Qed.

(** X13: whatever its outcome, [process_input] leaves the configuration of
    the controller alone: speed, sprint multiplier, interaction range, key
    bindings and the interaction callback. *)
Theorem process_input_keeps_configuration p (dt : float) (keys_pressed : gmap Z bool) :
  let p' := exec (process_input dt keys_pressed) p in
  move_speed p' = move_speed p ∧
  sprint_multiplier p' = sprint_multiplier p ∧
  interaction_range p' = interaction_range p ∧
  move_keys p' = move_keys p ∧
  sprint_key p' = sprint_key p ∧
  interact_key p' = interact_key p ∧
  on_interact p' = on_interact p.
Proof.
  unfold exec, process_input, check_move_key, move_key, bind, modify, gets, ret.
  simpl.
  destruct (Dict.get "up" (move_keys p)) as [ku|]; simpl; [|done].
  destruct (pressed keys_pressed ku); simpl;
    (destruct (Dict.get "down" (move_keys p)) as [kd|]; simpl; [|done]);
    (destruct (pressed keys_pressed kd); simpl;
       (destruct (Dict.get "left" (move_keys p)) as [kl|]; simpl; [|done]);
       (destruct (pressed keys_pressed kl); simpl;
          (destruct (Dict.get "right" (move_keys p)) as [kr|]; simpl; [|done]);
          (destruct (pressed keys_pressed kr); simpl; done))).
Qed.

(** X14: [process_interaction] reports True exactly when the interaction
    key is among the just-pressed keys and a callback is registered;
    otherwise the environment is untouched.  The held keys play no part,
    and after two [set_interaction_callback] calls only the second callback
    runs. *)
Theorem process_interaction_spec p (callback1 callback2 : Env → Env)
    (keys_pressed keys_pressed' key_just_pressed : gmap Z bool) (env : Env) :
  ((process_interaction p keys_pressed key_just_pressed env).2 = true ↔
   pressed key_just_pressed (interact_key p) = true ∧ is_Some (on_interact p)) ∧
  ((process_interaction p keys_pressed key_just_pressed env).2 = false →
   (process_interaction p keys_pressed key_just_pressed env).1 = env) ∧
  process_interaction p keys_pressed key_just_pressed env =
    process_interaction p keys_pressed' key_just_pressed env ∧
  (pressed key_just_pressed (interact_key p) = true →
   process_interaction
     (exec (set_interaction_callback callback1 ;;;
            set_interaction_callback callback2) p)
     keys_pressed key_just_pressed env = (callback2 env, true)).
Proof.
  unfold process_interaction, exec, set_interaction_callback, bind, modify; simpl.
  destruct (pressed key_just_pressed (interact_key p)),
    (on_interact p) as [cb|]; simpl; repeat split; try done;
    try (by intros [? ?]); try (by intros [? [? ?]]); eauto.
Qed.

(** *** Runs of the player system *)

(** X15: only indexes of the key state become keys: a key code that is
    negative or not below [len(key_state)] is never in [keys_pressed] nor in
    [keys_just_pressed], whatever the state before.  With the 512 entries of
    pygame's key state this holds for the default sprint key. *)
Theorem update_input_state_bounds s (key_state : list bool) (k : Z) :
  (k < 0 ∨ Z.of_nat (length key_state) ≤ k)%Z →
  keys_pressed (_update_input_state key_state s) !! k = None ∧
  keys_just_pressed (_update_input_state key_state s) !! k = None ∧
  (length key_state = 512 →
   pressed (keys_pressed (_update_input_state key_state s)) K_LSHIFT = false).
Proof.
  intros Hk. unfold _update_input_state; simpl.
  assert (∀ k', (k' < 0 ∨ Z.of_nat (length key_state) ≤ k')%Z →
                pressed_keys key_state !! k' = None) as Hout.
  { intros k' Hk'. rewrite pressed_keys_lookup. rewrite decide_False; [done|].
    intros [H0 Hs]. apply lookup_lt_Some in Hs. lia. }
  split; [by apply Hout|]. split.
  - rewrite just_pressed_lookup, Hout by done. done.
  - intros Hlen. unfold pressed. rewrite Hout; [done|].
    right. rewrite Hlen. unfold K_LSHIFT. lia.
Qed.

(** X16: after [_update_input_state] a key is in [keys_pressed] exactly when
    the key state is True at its index, it is in [keys_just_pressed] exactly
    when, besides, it was not in [keys_pressed] before, every stored value
    is True, and [previous_keys] is the [keys_pressed] of before. *)
Theorem update_input_state_spec s (key_state : list bool) (k : Z) (b : bool) :
  (keys_pressed (_update_input_state key_state s) !! k = Some b ↔
   b = true ∧ (0 ≤ k)%Z ∧ key_state !! Z.to_nat k = Some true) ∧
  (keys_just_pressed (_update_input_state key_state s) !! k = Some b ↔
   b = true ∧ (0 ≤ k)%Z ∧ key_state !! Z.to_nat k = Some true ∧
   keys_pressed s !! k = None) ∧
  previous_keys (_update_input_state key_state s) = keys_pressed s.
Proof.
  unfold _update_input_state; simpl.
  rewrite just_pressed_lookup, pressed_keys_lookup.
  split; [|split; [|done]].
  - case_decide; naive_solver.
  - case_decide; destruct (keys_pressed s !! k); naive_solver.
Qed.

(** X17: in the first frame of a player system every held key counts as
    just pressed: [keys_just_pressed] equals [keys_pressed]. *)
Theorem first_frame_keys_are_just_pressed (key_state : list bool) :
  keys_just_pressed (_update_input_state key_state PlayerSystem_init) =
  keys_pressed (_update_input_state key_state PlayerSystem_init).
Proof.
  apply map_eq. intros k. unfold _update_input_state, PlayerSystem_init; simpl.
  rewrite just_pressed_lookup, lookup_empty, pressed_keys_lookup.
  by case_decide.
Qed.

Lemma updates_held s (frames : list (list bool)) (k : Z) :
  (0 ≤ k)%Z →
  keys_pressed s !! k = Some true →
  Forall (λ key_state, key_state !! Z.to_nat k = Some true) frames →
  keys_pressed (updates frames s) !! k = Some true ∧
  (frames ≠ [] → keys_just_pressed (updates frames s) !! k = None).
Proof.
  intros Hk. revert s. unfold updates.
  induction frames as [|f frames IH]; intros s Hs Hall; simpl.
  - by split.
  - apply Forall_cons in Hall as [Hf Hall].
    assert (keys_pressed (_update_input_state f s) !! k = Some true) as Hs'.
    { unfold _update_input_state; simpl. rewrite pressed_keys_lookup.
      by rewrite decide_True. }
    destruct (IH _ Hs' Hall) as [IH1 IH2]. split; [done|]. intros _.
    destruct frames as [|f' frames]; [|by apply IH2].
    simpl. unfold _update_input_state; simpl.
    rewrite just_pressed_lookup, pressed_keys_lookup, Hs.
    by case_decide.
Qed.

(** X18: a key held over any number of frames is just pressed in the first
    of them at most: in every later frame it is in [keys_pressed] and not in
    [keys_just_pressed]. *)
Theorem held_key_is_just_pressed_once s (first : list bool)
    (later : list (list bool)) (k : Z) :
  (0 ≤ k)%Z →
  later ≠ [] →
  Forall (λ key_state, key_state !! Z.to_nat k = Some true) (first :: later) →
  keys_pressed (updates (first :: later) s) !! k = Some true ∧
  keys_just_pressed (updates (first :: later) s) !! k = None.
Proof.
  intros Hk Hne Hall. apply Forall_cons in Hall as [Hf Hall].
  change (updates (first :: later) s)
    with (updates later (_update_input_state first s)).
  destruct (updates_held (_update_input_state first s) later k Hk) as [H1 H2];
    [|done|by split; [|apply H2]].
  unfold _update_input_state; simpl. rewrite pressed_keys_lookup.
  by rewrite decide_True.
Qed.

End player_extras.

Section player_extras_witnesses.
Import PrimFloat.
Import Player.
Import PlayerForms.

Lemma process_input_closed_form_witness :
  ∃ p', process_input 1%float demo_keys demo_controller =
          (p', Ok ((0x1.6a09e667f3bccp-1 * 150 * 1)%float,
                   (- 0x1.6a09e667f3bccp-1 * 150 * 1)%float)) ∧
        move_direction p' = (0x1.6a09e667f3bccp-1, - 0x1.6a09e667f3bccp-1)%float ∧
        is_sprinting p' = false ∧
        is_moving p' = true.
Proof.
  exact (process_input_closed_form demo_controller 1%float demo_keys
           K_w K_s K_a K_d eq_refl eq_refl eq_refl eq_refl).
Defined.

Lemma process_input_facing_witness :
  facing_direction (exec (process_input 1%float demo_keys) demo_controller) =
    (1%float, 0%float).
Proof.
  exact (process_input_facing demo_controller 1%float demo_keys
           K_w K_s K_a K_d eq_refl eq_refl eq_refl eq_refl).
Defined.

(** A controller whose key bindings lack "left". *)
Lemma process_input_missing_key_witness :
  ∃ p', process_input 1%float demo_keys
          (mkPlayerController 150%float 1.5%float 100%float
             [("up", K_w); ("down", K_s); ("right", K_d)] K_LSHIFT K_e
             true true (0%float, 0%float) (0%float, 1%float) (Some S)) =
          (p', Raise KeyError) ∧
        is_moving p' = true ∧ is_sprinting p' = true.
Proof.
  apply (process_input_missing_key
           (mkPlayerController 150%float 1.5%float 100%float
              [("up", K_w); ("down", K_s); ("right", K_d)] K_LSHIFT K_e
              true true (0%float, 0%float) (0%float, 1%float) (Some S))
           1%float demo_keys).
  right. right. left. reflexivity.
Defined.

Lemma update_input_state_bounds_witness :
  keys_pressed (_update_input_state frame_down PlayerSystem_init) !! K_LSHIFT = None ∧
  keys_just_pressed (_update_input_state frame_down PlayerSystem_init) !! K_LSHIFT =
    None ∧
  (length frame_down = 512 →
   pressed (keys_pressed (_update_input_state frame_down PlayerSystem_init))
     K_LSHIFT = false).
Proof.
  apply (update_input_state_bounds PlayerSystem_init frame_down K_LSHIFT).
  right. vm_compute. discriminate.
Defined.

Lemma held_key_is_just_pressed_once_witness :
  keys_pressed (updates [frame_down; frame_down; frame_down] PlayerSystem_init)
    !! K_e = Some true ∧
  keys_just_pressed (updates [frame_down; frame_down; frame_down] PlayerSystem_init)
    !! K_e = None.
Proof.
  apply (held_key_is_just_pressed_once PlayerSystem_init frame_down
           [frame_down; frame_down] K_e).
  - vm_compute. discriminate.
  - discriminate.
  - repeat constructor.
Defined.

End player_extras_witnesses.

(** * Properties of the input manager *)

Section input_extras.
Import Input.
Context {Env : Type}.
Implicit Types (m : InputManager Env) (env : Env) (ev : event) (k : Z).

Lemma process_all_app (evs evs' : list event) (st : InputManager Env * Env) :
  process_all (evs ++ evs') st = process_all evs' (process_all evs st).
Proof. unfold process_all. apply foldl_app. Qed.

Lemma process_event_other_key m ev env k :
  ¬ about_key k ev →
  is_key_pressed (process_event m ev env).1 k = is_key_pressed m k.
Proof.
  intros Hev. unfold is_key_pressed.
  destruct ev; simpl in *; try done; apply bool_decide_ext; set_solver.
Qed.

Lemma process_all_other_keys (evs : list event) m env k :
  Forall (λ ev, ¬ about_key k ev) evs →
  is_key_pressed (process_all evs (m, env)).1 k = is_key_pressed m k.
Proof.
  revert m env. induction evs as [|ev evs IH]; intros m env Hall; [done|].
  apply Forall_cons in Hall as [Hev Hall].
  change (process_all (ev :: evs) (m, env))
    with (process_all evs (process_event m ev env)).
  destruct (process_event m ev env) as [m' env'] eqn:E.
  rewrite IH by done.
  change m' with (m', env').1. rewrite <- E. by apply process_event_other_key.
Qed.

(** X19: whether a key counts as pressed after a batch of events depends on
    the last event about that key alone: pressed after a KEYDOWN, not
    pressed after a KEYUP, and as before the batch when no event is about
    the key.  Events on other keys, mouse events and callbacks play no
    part. *)
Theorem key_pressed_follows_last_event m env (pre post : list event) k :
  Forall (λ ev, ¬ about_key k ev) post →
  is_key_pressed (process_all (pre ++ [KeyDown k] ++ post) (m, env)).1 k = true ∧
  is_key_pressed (process_all (pre ++ [KeyUp k] ++ post) (m, env)).1 k = false ∧
  is_key_pressed (process_all post (m, env)).1 k = is_key_pressed m k.
Proof.
  intros Hpost. split; [|split].
  - rewrite !process_all_app.
    destruct (process_all pre (m, env)) as [m1 env1].
    destruct (process_all [KeyDown k] (m1, env1)) as [m2 env2] eqn:E.
    rewrite process_all_other_keys by done.
    injection E as <- _. unfold is_key_pressed; simpl.
    apply bool_decide_eq_true. set_solver.
  - rewrite !process_all_app.
    destruct (process_all pre (m, env)) as [m1 env1].
    destruct (process_all [KeyUp k] (m1, env1)) as [m2 env2] eqn:E.
    rewrite process_all_other_keys by done.
    injection E as <- _. unfold is_key_pressed; simpl.
    apply bool_decide_eq_false. set_solver.
  - by apply process_all_other_keys.
Qed.

(** X20: a key pressed and released between two [update] calls is not lost:
    it is not held, but [is_key_down] and [is_key_up] are both True until
    [update], which clears both for every key and keeps the held keys. *)
Theorem key_tap_within_frame m env k :
  let m' := (process_all [KeyDown k; KeyUp k] (m, env)).1 in
  is_key_pressed m' k = false ∧
  is_key_down m' k = true ∧
  is_key_up m' k = true ∧
  ∀ k', is_key_down (update m') k' = false ∧
        is_key_up (update m') k' = false ∧
        is_key_pressed (update m') k' = is_key_pressed m' k'.
Proof.
  unfold is_key_pressed, is_key_down, is_key_up; simpl.
  split; [apply bool_decide_eq_false; set_solver|].
  split; [apply bool_decide_eq_true; set_solver|].
  split; [apply bool_decide_eq_true; set_solver|].
  intros k'. split; [|split]; [apply bool_decide_eq_false; set_solver..|done].
Qed.

Lemma registered_callbacks (regs : list (Z * (Z → bool → Env → Env))) m k :
  default [] (Dict.get k (key_callbacks (register_keys regs m))) =
  default [] (Dict.get k (key_callbacks m)) ++
  (snd <$> filter (λ r, r.1 = k) regs).
Proof.
  revert m. induction regs as [|[k0 cb] regs IH]; intros m.
  - simpl. by rewrite app_nil_r.
  - change (register_keys ((k0, cb) :: regs) m)
      with (register_keys regs (register_key_callback k0 cb m)).
    rewrite IH. simpl key_callbacks. unfold append_callback.
    destruct (decide (k0 = k)) as [->|Hne].
    + rewrite filter_cons_True by done. rewrite fmap_cons. simpl.
      destruct (Dict.get k (key_callbacks m)) as [l|] eqn:Hl;
        rewrite dict_get_set, decide_True by done; simpl.
      * by rewrite <- app_assoc.
      * done.
    + rewrite filter_cons_False by done.
      destruct (Dict.get k0 (key_callbacks m)) as [l|];
        rewrite dict_get_set, decide_False by done; done.
Qed.

(** X21: the callbacks registered for a key run on each KEYDOWN and KEYUP of
    that key, in the order of their registration, the first with pressed
    True and the second with False; callbacks registered for other keys do
    not run. *)
Theorem key_callbacks_run_in_registration_order
    (regs : list (Z * (Z → bool → Env → Env))) m env k :
  key_callbacks m = [] →
  (process_event (register_keys regs m) (KeyDown k) env).2 =
    foldl (λ env callback, callback k true env) env
      (snd <$> filter (λ r, r.1 = k) regs) ∧
  (process_event (register_keys regs m) (KeyUp k) env).2 =
    foldl (λ env callback, callback k false env) env
      (snd <$> filter (λ r, r.1 = k) regs).
Proof.
  intros Hm. pose proof (registered_callbacks regs m k) as Hreg.
  rewrite Hm in Hreg. simpl in Hreg.
  simpl. unfold run_callbacks.
  destruct (Dict.get k (key_callbacks (register_keys regs m))) as [l|];
    simpl in Hreg; rewrite <- Hreg; done.
Qed.

(** X22: no event changes [mouse_wheel_y] or the registered callbacks, and
    events of a type [process_event] does not handle change nothing at
    all. *)
Theorem events_keep_registrations (evs : list event) m env :
  let m' := (process_all evs (m, env)).1 in
  (mouse_wheel_y m' = mouse_wheel_y m ∧
   key_callbacks m' = key_callbacks m ∧
   mouse_button_callbacks m' = mouse_button_callbacks m ∧
   mouse_motion_callbacks m' = mouse_motion_callbacks m) ∧
  (Forall (λ ev, ev = Quit ∨ ∃ t, ev = OtherEvent t) evs →
   process_all evs (m, env) = (m, env)).
Proof.
  simpl. split.
  - revert m env. induction evs as [|ev evs IH]; intros m env; [done|].
    change (process_all (ev :: evs) (m, env))
      with (process_all evs (process_event m ev env)).
    destruct (process_event m ev env) as [m1 env1] eqn:E.
    destruct (IH m1 env1) as (-> & -> & -> & ->).
    by destruct ev; injection E as <- _.
  - revert m env. induction evs as [|ev evs IH]; intros m env Hall; [done|].
    apply Forall_cons in Hall as [Hev Hall].
    change (process_all (ev :: evs) (m, env))
      with (process_all evs (process_event m ev env)).
    destruct Hev as [->|[t ->]]; simpl; by apply IH.
Qed.

End input_extras.

Section input_extras_witnesses.
Import Input.
Local Open Scope Z_scope.

Lemma key_pressed_follows_last_event_witness :
  is_key_pressed
    (process_all ([KeyUp 101] ++ [KeyDown 101] ++ demo_batch)
       (InputManager_init, 0%nat)).1 101 = true ∧
  is_key_pressed
    (process_all ([KeyUp 101] ++ [KeyUp 101] ++ demo_batch)
       (InputManager_init, 0%nat)).1 101 = false ∧
  is_key_pressed
    (process_all demo_batch (InputManager_init, 0%nat)).1 101 =
    is_key_pressed (InputManager_init (Env := nat)) 101.
Proof.
  apply (key_pressed_follows_last_event (InputManager_init (Env := nat)) 0%nat
           [KeyUp 101] demo_batch 101).
  repeat constructor; simpl; [discriminate|tauto].
Defined.

Lemma key_callbacks_run_in_registration_order_witness :
  (process_event
     (register_keys demo_registrations
        InputManager_init) (KeyDown 101) 5%nat).2 =
    foldl (λ env callback, callback 101 true env) 5%nat
      (snd <$> filter (λ r, r.1 = 101)
         demo_registrations) ∧
  (process_event
     (register_keys demo_registrations
        InputManager_init) (KeyUp 101) 5%nat).2 =
    foldl (λ env callback, callback 101 false env) 5%nat
      (snd <$> filter (λ r, r.1 = 101)
         demo_registrations).
Proof.
  apply (key_callbacks_run_in_registration_order
           demo_registrations
           (InputManager_init (Env := nat)) 5%nat 101).
  reflexivity.
Defined.

Example key_callbacks_order_value :
  (process_event
     (register_keys demo_registrations
        InputManager_init) (KeyDown 101) 5%nat).2 = 12%nat.
Proof. reflexivity. Qed.

End input_extras_witnesses.

(** * Properties of the application loop *)

Section application_extras.
Import Input.
Context {Env : Type} `{Hs : App.SceneHooks Env}.
Implicit Types (a : App.Application Env) (ev : event).

(** X23: [Application.update] clears the one-frame input sets before the
    scene is updated: the scene's [update] runs on an application in which
    [is_key_down], [is_key_up], [is_mouse_button_down] and
    [is_mouse_button_up] are False for every code, while the held keys and
    buttons are those of before. *)
Theorem scene_update_sees_no_edges a (dt : PrimFloat.float) (sc : nat) :
  App.current_scene a = Some sc →
  ∃ a1, App.update dt a = App.scene_update sc dt a1 ∧
        ∀ k, is_key_down (App.input_manager a1) k = false ∧
             is_key_up (App.input_manager a1) k = false ∧
             is_mouse_button_down (App.input_manager a1) k = false ∧
             is_mouse_button_up (App.input_manager a1) k = false ∧
             is_key_pressed (App.input_manager a1) k =
               is_key_pressed (App.input_manager a) k ∧
             is_mouse_button_pressed (App.input_manager a1) k =
               is_mouse_button_pressed (App.input_manager a) k.
Proof.
  intros Hsc. eexists. split.
  - unfold App.update, App.with_scene. simpl. rewrite Hsc. reflexivity.
  - intros k. simpl.
    unfold is_key_down, is_key_up, is_mouse_button_down, is_mouse_button_up.
    simpl. repeat split; apply bool_decide_eq_false; set_solver.
Qed.

Lemma process_one_event_quit a ev :
  (∀ sc ev a, App.quit_requested (App.scene_process_event sc ev a) =
                App.quit_requested a ∧
              App.escape_quits (App.scene_process_event sc ev a) =
                App.escape_quits a) →
  App.quit_requested (App.process_one_event a ev) =
    App.quit_requested a || App.asks_to_quit (App.escape_quits a) ev ∧
  App.escape_quits (App.process_one_event a ev) = App.escape_quits a.
Proof.
  intros Hhook. unfold App.process_one_event, App.with_scene.
  set (a1 := match ev with
             | Quit => _
             | KeyDown key => _
             | _ => a
             end).
  assert (App.quit_requested a1 =
            App.quit_requested a || App.asks_to_quit (App.escape_quits a) ev ∧
          App.escape_quits a1 = App.escape_quits a) as [Hq He].
  { unfold a1. destruct ev as [key| | | | | |]; simpl;
      rewrite ?orb_false_r, ?orb_true_r; try done.
    case_bool_decide; simpl; rewrite ?orb_false_r; [|done].
    destruct (App.escape_quits a) eqn:Hesc; simpl;
      rewrite ?Hesc, ?orb_false_r, ?orb_true_r; done. }
  simpl. destruct (App.current_scene a1) as [sc|]; simpl.
  - destruct (Hhook sc ev
                (App.set_input
                   (process_event (App.input_manager a1) ev (App.env a1)) a1))
      as [-> ->]. simpl. by rewrite Hq, He.
  - by rewrite Hq, He.
Qed.

(** X24: when no scene touches the quit flag or the [escape_quits] setting
    in its [process_event], [process_events] sets [quit_requested] exactly
    when the batch holds a QUIT event, or a KEYDOWN of Escape while
    [escape_quits] is set; it never clears the flag, and the other events of
    the batch are processed all the same. *)
Theorem process_events_quit (events : list event) a :
  (∀ sc ev a, App.quit_requested (App.scene_process_event sc ev a) =
                App.quit_requested a ∧
              App.escape_quits (App.scene_process_event sc ev a) =
                App.escape_quits a) →
  App.quit_requested (App.process_events events a) =
    App.quit_requested a ||
    existsb (App.asks_to_quit (App.escape_quits a)) events.
Proof.
  intros Hhook. revert a. unfold App.process_events.
  induction events as [|ev events IH]; intros a; simpl.
  - by rewrite orb_false_r.
  - destruct (process_one_event_quit a ev Hhook) as [Hq He].
    rewrite IH, Hq, He. by rewrite orb_assoc.
Qed.

End application_extras.

Section application_extras_witnesses.
Import Input.
Local Open Scope Z_scope.

Lemma scene_update_sees_no_edges_witness :
  ∃ a1, App.update (H := App.idle_scene) PrimFloat.one App.demo_application =
          App.scene_update (SceneHooks := App.idle_scene) 0%nat PrimFloat.one a1 ∧
        ∀ k, is_key_down (App.input_manager a1) k = false ∧
             is_key_up (App.input_manager a1) k = false ∧
             is_mouse_button_down (App.input_manager a1) k = false ∧
             is_mouse_button_up (App.input_manager a1) k = false ∧
             is_key_pressed (App.input_manager a1) k =
               is_key_pressed (App.input_manager App.demo_application) k ∧
             is_mouse_button_pressed (App.input_manager a1) k =
               is_mouse_button_pressed (App.input_manager App.demo_application) k.
Proof.
  apply (scene_update_sees_no_edges (Hs := App.idle_scene) App.demo_application
           PrimFloat.one 0%nat).
  reflexivity.
Defined.

Lemma process_events_quit_witness :
  App.quit_requested
    (App.process_events (H := App.idle_scene) [KeyDown 101; KeyDown 27; KeyUp 101]
       App.demo_application) =
    App.quit_requested App.demo_application ||
    existsb (App.asks_to_quit (App.escape_quits App.demo_application))
      [KeyDown 101; KeyDown 27; KeyUp 101].
Proof.
  apply (process_events_quit (Hs := App.idle_scene)
           [KeyDown 101; KeyDown 27; KeyUp 101] App.demo_application).
  intros sc ev a. split; reflexivity.
Defined.

End application_extras_witnesses.
